(** * sshcode: the session engine of [sshcode.go], embedded and verified

    The file follows [sshcode.go] function by function.  Go strings are byte
    strings ([string], one [ascii] per byte).  The functions of the Go
    standard library that the program calls are modelled first, each in a
    module named after its package; everything the program asks of the
    outside world (child processes, sockets, the clock, the random source)
    is answered by an oracle, and every such request is recorded in a
    trace. *)

From Stdlib Require Import ZArith List String Ascii Bool Lia DecimalString.
Import ListNotations.
Local Open Scope string_scope.
Local Open Scope Z_scope.

(** ** Errors

    A Go [error] value.  [AddrError] is [net.AddrError]; [Errorf] is an error
    made by [xerrors.Errorf] from a format and its printed arguments, and
    [Errorfw] one whose format ends in the [%w] verb and which wraps the
    error given last; [DeadlineExceeded] is
    [context.DeadlineExceeded]; [Foreign] stands for any error handed back by
    the operating system, a child process or another package. *)
Inductive error : Type :=
| AddrError (Err Addr : string)
| DeadlineExceeded
| Foreign (what : string)
| Errorf (format : string) (args : list string)
| Errorfw (format : string) (args : list string) (wrapped : error).

(** A Go result pair [(T, error)]: the value when the error is [nil]. *)
Inductive result (T : Type) : Type :=
| Ok (v : T)
| Err (e : error).
Arguments Ok {T} v.
Arguments Err {T} e.

(** ** Bytes *)

Definition code (c : ascii) : Z := Z.of_N (N_of_ascii c).
Definition byte_of (n : Z) : ascii := ascii_of_N (Z.to_N n).
Definition str1 (c : ascii) : string := String c "".

Fixpoint has_byte (c : ascii) (s : string) : bool :=
  match s with
  | "" => false
  | String x r => if Ascii.eqb x c then true else has_byte c r
  end.

Fixpoint rev_str (acc s : string) : string :=
  match s with
  | "" => acc
  | String c r => rev_str (String c acc) r
  end.

Definition strrev (s : string) : string := rev_str "" s.

(** ** Package [strings] *)

Module strings.

(** [strings.Split(s, sep)] for a one-byte separator, which is what both
    call sites pass (a space, then an at sign).  The result is never empty:
    a string without the separator is returned as its only element. *)
Fixpoint Split (s : string) (sep : ascii) : list string :=
  match s with
  | "" => [""]
  | String c r =>
      if Ascii.eqb c sep then "" :: Split r sep
      else match Split r sep with
           | t :: ts => String c t :: ts
           | [] => [str1 c]
           end
  end.

(** [strings.Join(elems, sep)]. *)
Fixpoint Join (elems : list string) (sep : string) : string :=
  match elems with
  | [] => ""
  | [e] => e
  | e :: rest => e ++ sep ++ Join rest sep
  end.

(** [strings.HasPrefix] and [strings.TrimPrefix]. *)
Fixpoint HasPrefix (s pre : string) : bool :=
  match pre, s with
  | "", _ => true
  | String p pr, String c r => if Ascii.eqb c p then HasPrefix r pr else false
  | String _ _, "" => false
  end.

Fixpoint drop (n : nat) (s : string) : string :=
  match n, s with
  | O, _ => s
  | S k, String _ r => drop k r
  | S _, "" => ""
  end.

Definition TrimPrefix (s pre : string) : string :=
  if HasPrefix s pre then drop (String.length pre) s else s.

(** [unicode.IsSpace] on the encoded form.  The white space of Unicode is
    U+0009..U+000D, U+0020, U+0085, U+00A0, U+1680, U+2000..U+200A, U+2028,
    U+2029, U+202F, U+205F and U+3000; UTF-8 encodes each of them in exactly
    one way, in one, two or three bytes. *)
Definition space1 (a : ascii) : bool :=
  let x := code a in ((9 <=? x) && (x <=? 13)) || (x =? 32).

Definition space2 (a b : ascii) : bool :=
  (code a =? 0xC2) && ((code b =? 0x85) || (code b =? 0xA0)).

Definition space3 (a b c : ascii) : bool :=
  let x := code a in let y := code b in let z := code c in
  ((x =? 0xE1) && (y =? 0x9A) && (z =? 0x80))
  || ((x =? 0xE2) && (y =? 0x80)
      && (((0x80 <=? z) && (z <=? 0x8A)) || (z =? 0xA8) || (z =? 0xA9) || (z =? 0xAF)))
  || ((x =? 0xE2) && (y =? 0x81) && (z =? 0x9F))
  || ((x =? 0xE3) && (y =? 0x80) && (z =? 0x80)).

(** [strings.TrimLeftFunc(s, unicode.IsSpace)]: runes are decoded from the
    front and dropped while they are white space. *)
Fixpoint TrimLeftSpace (s : string) : string :=
  match s with
  | "" => ""
  | String a r1 =>
      if space1 a then TrimLeftSpace r1
      else match r1 with
           | "" => s
           | String b r2 =>
               if space2 a b then TrimLeftSpace r2
               else match r2 with
                    | "" => s
                    | String c r3 => if space3 a b c then TrimLeftSpace r3 else s
                    end
           end
  end.

(** The same from the back, on the reversed string: the last rune is the
    one whose encoding is a suffix. *)
Fixpoint TrimLeftSpaceRev (s : string) : string :=
  match s with
  | "" => ""
  | String a r1 =>
      if space1 a then TrimLeftSpaceRev r1
      else match r1 with
           | "" => s
           | String b r2 =>
               if space2 b a then TrimLeftSpaceRev r2
               else match r2 with
                    | "" => s
                    | String c r3 => if space3 c b a then TrimLeftSpaceRev r3 else s
                    end
           end
  end.

Definition TrimRightSpace (s : string) : string :=
  strrev (TrimLeftSpaceRev (strrev s)).

(** [strings.TrimSpace(s)]. *)
Definition TrimSpace (s : string) : string := TrimRightSpace (TrimLeftSpace s).

End strings.

(** ** Package [strconv] *)

Module strconv.

(** [strconv.Itoa(i)]: the decimal form, with a minus sign when negative. *)
Definition Itoa (i : Z) : string := NilZero.string_of_int (Z.to_int i).

End strconv.

(** ** Package [net] *)

Module net.

Definition IPv4len : Z := 4.
Definition IPv6len : Z := 16.
Definition big : Z := 0xFFFFFF.

Definition is_digit (c : ascii) : bool := (48 <=? code c) && (code c <=? 57).

(** [dtoi]: the decimal number at the front of [s].  The triple is the
    number, the count of bytes read and the flag; the loop gives up with
    [big] once the number reaches it. *)
Fixpoint dtoi_loop (s : string) (n i : Z) : Z * Z * bool :=
  match s with
  | "" => (n, i, true)
  | String c r =>
      if is_digit c then
        let n' := n * 10 + (code c - 48) in
        if big <=? n' then (big, i, false) else dtoi_loop r n' (i + 1)
      else (n, i, true)
  end.

Definition dtoi (s : string) : Z * Z * bool :=
  let '(n, i, ok) := dtoi_loop s 0 0 in
  if negb ok then (n, i, false)
  else if i =? 0 then (0, 0, false)
  else (n, i, true).

Definition hex_val (c : ascii) : option Z :=
  let x := code c in
  if (48 <=? x) && (x <=? 57) then Some (x - 48)
  else if (97 <=? x) && (x <=? 102) then Some (x - 97 + 10)
  else if (65 <=? x) && (x <=? 70) then Some (x - 65 + 10)
  else None.

(** [xtoi]: the same for a hexadecimal number. *)
Fixpoint xtoi_loop (s : string) (n i : Z) : Z * Z * bool :=
  match s with
  | "" => (n, i, true)
  | String c r =>
      match hex_val c with
      | Some d =>
          let n' := n * 16 + d in
          if big <=? n' then (0, i, false) else xtoi_loop r n' (i + 1)
      | None => (n, i, true)
      end
  end.

Definition xtoi (s : string) : Z * Z * bool :=
  let '(n, i, ok) := xtoi_loop s 0 0 in
  if negb ok then (n, i, false)
  else if i =? 0 then (0, i, false)
  else (n, i, true).

Definition first_is (s : string) (c : ascii) : bool :=
  match s with
  | String x _ => Ascii.eqb x c
  | "" => false
  end.

Definition after (c : Z) (s : string) : string := strings.drop (Z.to_nat c) s.

(** [parseIPv4]: four decimal fields of at most 255, separated by dots,
    none written with a leading zero, and nothing after them.  [k] counts
    the fields still to read and [p] holds the ones read. *)
Fixpoint parseIPv4_loop (k : nat) (first : bool) (s : string) (p : list Z)
  : option (list Z) :=
  match k with
  | O => if (String.length s =? 0)%nat then Some p else None
  | S k' =>
      if (String.length s =? 0)%nat then None
      else if negb first && negb (first_is s ".") then None
      else
        let s := if first then s else after 1 s in
        let '(n, c, ok) := dtoi s in
        if negb ok || (0xFF <? n) then None
        else if (1 <? c) && first_is s "0" then None
        else parseIPv4_loop k' false (after c s) (p ++ [n])%list
  end.

(** [IPv4(a, b, c, d)]: the 16-byte form of an IPv4 address. *)
Definition IPv4 (p : list Z) : list Z :=
  ([0; 0; 0; 0; 0; 0; 0; 0; 0; 0; 0xff; 0xff] ++ p)%list.

Definition parseIPv4 (s : string) : option (list Z) :=
  option_map IPv4 (parseIPv4_loop 4 true s []).

(** The loop of [parseIPv6].  [ip] holds the bytes stored so far, so the
    index [i] of the source is its length, and [k] counts the 16-bit groups
    that still fit.  [Some (s, ip, ellipsis)] is the state when the loop is
    left; [None] is a [return nil] inside it. *)
Fixpoint parseIPv6_loop (k : nat) (s : string) (ip : list Z) (ellipsis : Z)
  : option (string * list Z * Z) :=
  match k with
  | O => Some (s, ip, ellipsis)
  | S k' =>
      let i := Z.of_nat (List.length ip) in
      let '(n, c, ok) := xtoi s in
      if negb ok || (0xFFFF <? n) then None
      else if first_is (after c s) "." then
        if (ellipsis <? 0) && negb (i =? IPv6len - IPv4len) then None
        else if IPv6len <? i + IPv4len then None
        else match parseIPv4 s with
             | None => None
             | Some ip4 => Some ("", (ip ++ skipn 12 ip4)%list, ellipsis)
             end
      else
        let ip := (ip ++ [Z.shiftr n 8; Z.land n 0xFF])%list in
        let i := i + 2 in
        let s := after c s in
        if (String.length s =? 0)%nat then Some (s, ip, ellipsis)
        else if negb (first_is s ":") || (String.length s =? 1)%nat then None
        else
          let s := after 1 s in
          if first_is s ":" then
            if 0 <=? ellipsis then None
            else
              let s := after 1 s in
              if (String.length s =? 0)%nat then Some (s, ip, i)
              else parseIPv6_loop k' s ip i
          else parseIPv6_loop k' s ip ellipsis
  end.

(** [parseIPv6]: after the loop the whole string must be used, and a short
    address is completed with zeros at its ellipsis. *)
Definition parseIPv6 (s : string) : option (list Z) :=
  let lead := strings.HasPrefix s "::" in
  let ellipsis := if lead then 0 else -1 in
  let s := if lead then after 2 s else s in
  if lead && (String.length s =? 0)%nat then Some (repeat 0 16)
  else
    match parseIPv6_loop 8 s [] ellipsis with
    | None => None
    | Some (s, ip, ellipsis) =>
        if negb (String.length s =? 0)%nat then None
        else
          let i := Z.of_nat (List.length ip) in
          if i <? IPv6len then
            if ellipsis <? 0 then None
            else
              let e := Z.to_nat ellipsis in
              Some (firstn e ip ++ repeat 0 (Z.to_nat (IPv6len - i)) ++ skipn e ip)%list
          else if 0 <=? ellipsis then None
          else Some ip
    end.

(** [net.ParseIP(s)]: the first dot or colon decides between the two
    forms; [None] is the [nil] address. *)
Fixpoint ParseIP_scan (whole s : string) : option (list Z) :=
  match s with
  | "" => None
  | String c r =>
      if Ascii.eqb c "." then parseIPv4 whole
      else if Ascii.eqb c ":" then parseIPv6 whole
      else ParseIP_scan whole r
  end.

Definition ParseIP (s : string) : option (list Z) := ParseIP_scan s s.

(** [bytealg.IndexByteString] and the [last] of package [net]: the first
    and the last position of a byte, [-1] when it is absent. *)
Fixpoint IndexByte (s : string) (c : ascii) : Z :=
  match s with
  | "" => -1
  | String x r =>
      if Ascii.eqb x c then 0
      else let i := IndexByte r c in if i <? 0 then -1 else i + 1
  end.

Fixpoint last (s : string) (c : ascii) : Z :=
  match s with
  | "" => -1
  | String x r =>
      let i := last r c in
      if 0 <=? i then i + 1 else if Ascii.eqb x c then 0 else -1
  end.

(** The slice [s[lo:hi]]. *)
Definition slice (s : string) (lo hi : Z) : string :=
  substring (Z.to_nat lo) (Z.to_nat (hi - lo)) s.

Definition len (s : string) : Z := Z.of_nat (String.length s).

Definition missingPort : string := "missing port in address".
Definition tooManyColons : string := "too many colons in address".

(** [net.SplitHostPort(hostport)]. *)
Definition SplitHostPort (hostport : string) : result (string * string) :=
  let addrErr (why : string) : result (string * string) :=
    Err (AddrError why hostport) in
  let i := last hostport ":" in
  if i <? 0 then addrErr missingPort
  else
    let bracketed := first_is hostport "[" in
    let end_ := IndexByte hostport "]" in
    if bracketed && (end_ <? 0) then addrErr "missing ']' in address"
    else if bracketed && (end_ + 1 =? len hostport) then addrErr missingPort
    else if bracketed && negb (end_ + 1 =? i) then
      if first_is (after (end_ + 1) hostport) ":" then addrErr tooManyColons
      else addrErr missingPort
    else if negb bracketed && (0 <=? IndexByte (slice hostport 0 i) ":") then
      addrErr tooManyColons
    else
      let host := if bracketed then slice hostport 1 end_ else slice hostport 0 i in
      let j := if bracketed then 1 else 0 in
      let k := if bracketed then end_ + 1 else 0 in
      if 0 <=? IndexByte (after j hostport) "[" then addrErr "unexpected '[' in address"
      else if 0 <=? IndexByte (after k hostport) "]" then addrErr "unexpected ']' in address"
      else Ok (host, slice hostport (i + 1) (len hostport)).

(** [net.JoinHostPort(host, port)]: a host with a colon is taken for a
    literal IPv6 address and bracketed. *)
Definition JoinHostPort (host port : string) : string :=
  if 0 <=? IndexByte host ":" then "[" ++ host ++ "]:" ++ port
  else host ++ ":" ++ port.

End net.

(** ** The outside world

    Every request the program makes of its environment is an [event], kept
    with the answer it got.  The trace of a run is the list of its events in
    the order they happened. *)

Record Response : Type := { StatusCode : Z }.

(** The two ends of the [Running] state: the tunnel process exited
    ([ctx.Done()]) or the user interrupted (the signal channel). *)
Inductive Signal : Type := TunnelEnded | UserInterrupted.

(** The two asset classes that are synchronised. *)
Inductive Asset : Type := Settings | Extensions.

Inductive event : Type :=
| EvInfo (format : string)                       (* flog.Info, arguments dropped *)
| EvError (format : string)                      (* flog.Error, arguments dropped *)
| EvIntn (n r : Z)                               (* rand.Intn(n) = r *)
| EvListen (network address : string) (err : option error)
| EvClose (address : string)                     (* l.Close() *)
| EvCombinedOutput (name : string) (args : list string) (out : string) (err : option error)
| EvRun (name : string) (args : list string) (stdin : option string) (err : option error)
| EvStart (name : string) (args : list string) (err : option error)
| EvLookPath (file : string) (err : option error)
| EvStat (name : string) (err : option error)
| EvMkdirAll (path : string) (perm : Z) (err : option error)
| EvConfigDir (res : result string)
| EvExtensionsDir (res : result string)
| EvWithTimeout (d : Z)                          (* context.WithTimeout, in ns *)
| EvCtxErr (err : option error)                  (* ctx.Err() *)
| EvGet (url : string) (timeout : Z) (res : result Response)
| EvBodyClose
| EvOpenURL (url : string) (err : option error)
| EvSelect (sig : Signal)
| EvSync (what : Asset) (back : bool) (err : option error).

Definition trace : Type := list event.

(** The environment: each answer may depend on everything that happened
    before (the trace so far) and on the arguments of the request.
    [configDir] and [extensionsDir] are functions of this repository that
    live outside [sshcode.go]; they take no argument and return a directory
    or an error.  [filepath_Dir] and [os_IsNotExist] are pure. *)
Record World : Type := {
  rand_Intn : trace -> Z -> Z;
  net_Listen : trace -> string -> string -> option error;
  exec_CombinedOutput : trace -> string -> list string -> string * option error;
  exec_Run : trace -> string -> list string -> option string -> option error;
  exec_Start : trace -> string -> list string -> option error;
  exec_LookPath : trace -> string -> option error;
  os_Stat : trace -> string -> option error;
  os_IsNotExist : option error -> bool;
  os_MkdirAll : trace -> string -> Z -> option error;
  configDir : trace -> result string;
  extensionsDir : trace -> result string;
  ctx_Err : trace -> option error;
  http_Get : trace -> string -> Z -> result Response;
  browser_OpenURL : trace -> string -> option error;
  select_first : trace -> Signal;
  filepath_Dir : string -> string
}.

(** ** Computations

    A computation reads the trace so far and returns its value with the
    extended trace; [None] only when a loop without a bound of its own has
    used up its fuel. *)
Definition M (A : Type) : Type := trace -> option (A * trace).

Definition ret {A} (a : A) : M A := fun tr => Some (a, tr).

Definition bind {A B} (m : M A) (k : A -> M B) : M B :=
  fun tr => match m tr with
            | Some (a, tr') => k a tr'
            | None => None
            end.

Notation "x <- m ;; k" := (bind m (fun x => k))
  (at level 61, m at next level, right associativity).
Notation "m ;;; k" := (bind m (fun _ => k))
  (at level 61, right associativity).

(** One request: the answer is computed from the trace, and the event made
    from the answer is appended. *)
Definition request {A} (answer : trace -> A) (ev : A -> event) : M A :=
  fun tr => let a := answer tr in Some (a, (tr ++ [ev a])%list).

Definition emit (e : event) : M unit := request (fun _ => tt) (fun _ => e).

Definition Second : Z := 1000000000.

Definition is_nil (e : option error) : bool :=
  match e with None => true | Some _ => false end.

(** ** The program, [package main] *)

Definition codeServerPath : string := "~/.cache/sshcode/sshcode-server".

Record options : Type := {
  skipSync : bool;
  syncBack : bool;
  noOpen : bool;
  bindAddr : string;
  remotePort : string;
  sshFlags : string
}.

Section Program.

Variable w : World.

(** *** Requests *)

Definition Info (format : string) : M unit := emit (EvInfo format).
Definition Error (format : string) : M unit := emit (EvError format).
Definition Intn (n : Z) : M Z := request (fun tr => rand_Intn w tr n) (EvIntn n).
Definition Listen (network address : string) : M (option error) :=
  request (fun tr => net_Listen w tr network address) (EvListen network address).
Definition Close (address : string) : M unit := emit (EvClose address).
Definition CombinedOutput (name : string) (args : list string) : M (string * option error) :=
  request (fun tr => exec_CombinedOutput w tr name args)
          (fun a => EvCombinedOutput name args (fst a) (snd a)).
Definition Run (name : string) (args : list string) (stdin : option string) : M (option error) :=
  request (fun tr => exec_Run w tr name args stdin) (EvRun name args stdin).
Definition Start (name : string) (args : list string) : M (option error) :=
  request (fun tr => exec_Start w tr name args) (EvStart name args).
Definition LookPath (file : string) : M (option error) :=
  request (fun tr => exec_LookPath w tr file) (EvLookPath file).
Definition Stat (name : string) : M (option error) :=
  request (fun tr => os_Stat w tr name) (EvStat name).
Definition MkdirAll (path : string) (perm : Z) : M (option error) :=
  request (fun tr => os_MkdirAll w tr path perm) (EvMkdirAll path perm).
Definition CtxErr : M (option error) := request (ctx_Err w) EvCtxErr.
Definition Get (url : string) (timeout : Z) : M (result Response) :=
  request (fun tr => http_Get w tr url timeout) (EvGet url timeout).
Definition OpenURL (url : string) : M (option error) :=
  request (fun tr => browser_OpenURL w tr url) (EvOpenURL url).
Definition Select : M Signal := request (select_first w) EvSelect.

(** *** [randomPort] *)

Definition minPort : Z := 1024.
Definition maxPort : Z := 65535.
Definition maxTries : nat := 10.

(** The loop of [randomPort]; [tries] is [maxTries - i]. *)
Fixpoint randomPort_loop (tries : nat) : M (result string) :=
  match tries with
  | O => ret (Err (Errorf "max number of tries exceeded: %d" ["10"]))
  | S tries' =>
      r <- Intn (maxPort - minPort + 1) ;;
      let port := r + minPort in
      err <- Listen "tcp" (":" ++ strconv.Itoa port) ;;
      match err with
      | None => Close (":" ++ strconv.Itoa port) ;;; ret (Ok (strconv.Itoa port))
      | Some _ => Info "port taken: %d" ;;; randomPort_loop tries'
      end
  end.

Definition randomPort : M (result string) := randomPort_loop maxTries.

(** *** [parseBindAddr] *)

Definition parseBindAddr (bindAddr : string) : M (result string) :=
  let bindAddr := if (bindAddr =? "")%string then ":" else bindAddr in
  match net.SplitHostPort bindAddr with
  | Err err => ret (Err err)
  | Ok (host, port) =>
      let host := if (host =? "")%string then "127.0.0.1" else host in
      r <- (if (port =? "")%string then randomPort else ret (Ok port)) ;;
      match r with
      | Err err => ret (Err err)
      | Ok port => ret (Ok (net.JoinHostPort host port))
      end
  end.

(** *** [openBrowser] *)

Definition chromeOptions (url : string) : list string :=
  ["--app=" ++ url; "--disable-extensions"; "--disable-plugins"; "--incognito"].

Definition commandExists (name : string) : M bool :=
  err <- LookPath name ;; ret (is_nil err).

Definition pathExists (name : string) : M bool :=
  err <- Stat name ;; ret (is_nil err).

Definition macPath : string :=
  "/Applications/Google Chrome.app/Contents/MacOS/Google Chrome".
Definition wslPath : string :=
  "/mnt/c/Program Files (x86)/Google/Chrome/Application/chrome.exe".

(** The tail of [openBrowser] after the [switch]: [openCmd.Start()]. *)
Definition openBrowser_start (name : string) (url : string) : M unit :=
  err <- Start name (chromeOptions url) ;;
  match err with
  | Some _ => Error "failed to open browser: %v"
  | None => ret tt
  end.

Definition openBrowser (url : string) : M unit :=
  b <- commandExists "google-chrome" ;;
  if b then openBrowser_start "google-chrome" url else
  b <- commandExists "google-chrome-stable" ;;
  if b then openBrowser_start "google-chrome-stable" url else
  b <- commandExists "chromium" ;;
  if b then openBrowser_start "chromium" url else
  b <- commandExists "chromium-browser" ;;
  if b then openBrowser_start "chromium-browser" url else
  b <- pathExists macPath ;;
  if b then openBrowser_start macPath url else
  b <- pathExists wslPath ;;
  if b then openBrowser_start wslPath url else
  err <- OpenURL url ;;
  match err with
  | Some _ => Error "failed to open browser: %v"
  | None => ret tt
  end.

(** *** [ensureDir], [rsync] and the two sync functions *)

Definition ensureDir (path : string) : M (option error) :=
  err <- Stat path ;;
  if os_IsNotExist w err then MkdirAll path 488 (* 0750 *) else ret err.

Definition rsync (src dest sshFlags : string) (excludePaths : list string)
  : M (option error) :=
  let excludeFlags := map (fun path => "--exclude=" ++ path) excludePaths in
  err <- Run "rsync"
           (List.app excludeFlags
              ["-azvr"; "-e"; "ssh " ++ sshFlags; "-u"; "--times"; "--delete";
               "--copy-unsafe-links"; src; dest])
           None ;;
  match err with
  | Some err => ret (Some (Errorfw "failed to rsync '%s' to '%s': %w" [src; dest] err))
  | None => ret None
  end.

(** The call of a sync function is noted in the trace, with its direction
    and outcome, when it returns. *)
Definition noted (what : Asset) (back : bool) (body : M (option error))
  : M (option error) :=
  err <- body ;; emit (EvSync what back err) ;;; ret err.

Definition remoteSettingsDir : string := "~/.local/share/code-server/User/".
Definition remoteExtensionsDir : string := "~/.local/share/code-server/extensions/".

Definition syncUserSettings (sshFlags host : string) (back : bool) : M (option error) :=
  noted Settings back
    (r <- request (configDir w) EvConfigDir ;;
     match r with
     | Err err => ret (Some err)
     | Ok localConfDir =>
         err <- ensureDir localConfDir ;;
         match err with
         | Some err => ret (Some err)
         | None =>
             let src := localConfDir ++ "/" in
             let dest := host ++ ":" ++ remoteSettingsDir in
             let '(src, dest) := if back then (dest, src) else (src, dest) in
             rsync src dest sshFlags ["workspaceStorage"; "logs"; "CachedData"]
         end
     end).

Definition syncExtensions (sshFlags host : string) (back : bool) : M (option error) :=
  noted Extensions back
    (r <- request (extensionsDir w) EvExtensionsDir ;;
     match r with
     | Err err => ret (Some err)
     | Ok localExtensionsDir =>
         err <- ensureDir localExtensionsDir ;;
         match err with
         | Some err => ret (Some err)
         | None =>
             let src := localExtensionsDir ++ "/" in
             let dest := host ++ ":" ++ remoteExtensionsDir in
             let '(src, dest) := if back then (dest, src) else (src, dest) in
             rsync src dest sshFlags []
         end
     end).

(** *** [downloadScript] *)

Definition nl : string := str1 (byte_of 10).

Definition downloadScript (codeServerPath : string) : string :=
  let dir := filepath_Dir w codeServerPath in
  "set -euxo pipefail || exit 1" ++ nl ++ nl ++
  "pkill -f " ++ codeServerPath ++ " || true" ++ nl ++
  "mkdir -p ~/.local/share/code-server " ++ dir ++ nl ++
  "cd " ++ dir ++ nl ++
  "wget -N https://codesrv-ci.cdr.sh/latest-linux" ++ nl ++
  "[ -f " ++ codeServerPath ++ " ] && rm " ++ codeServerPath ++ nl ++
  "ln latest-linux " ++ codeServerPath ++ nl ++
  "chmod +x " ++ codeServerPath.

(** *** [parseHost] and [parseGCPSSHCmd] *)

Definition parseGCPSSHCmd (instance : string) : M (result (string * string)) :=
  let dryRunCmd := "gcloud compute ssh --dry-run " ++ instance in
  a <- CombinedOutput "sh" ["-c"; dryRunCmd] ;;
  let '(out, err) := a in
  match err with
  | Some err => ret (Err (Errorfw "%s: %w" [out] err))
  | None =>
      let toks := strings.Split out " " in
      if (List.length toks <? 2)%nat then
        ret (Err (Errorf "unexpected output for '%v' command, %s" [dryRunCmd; out]))
      else
        let sshFlags := strings.Join (removelast (tl toks)) " " in
        let userIP := List.last toks "" in
        let toks := strings.Split userIP "@" in
        let ip := if (List.length toks <? 2)%nat
                  then strings.TrimSpace (nth 0 toks "")
                  else strings.TrimSpace (nth 1 toks "") in
        match net.ParseIP ip with
        | None => ret (Err (Errorf "parsed invalid ip address %v" [ip]))
        | Some _ => ret (Ok (ip, sshFlags))
        end
  end.

Definition parseHost (host : string) : M (result (string * string)) :=
  let host := strings.TrimSpace host in
  if strings.HasPrefix host "gcp:" then
    parseGCPSSHCmd (strings.TrimPrefix host "gcp:")
  else ret (Ok (host, "")).

(** *** [sshCode] *)

(** The readiness loop of [sshCode].  It has no bound of its own, so the
    model takes fuel: one unit per turn.  [ctx.Err()] is asked once a turn;
    the error it gives does not change once it is set. *)
Fixpoint sshCode_loop (fuel : nat) (url : string) : M (option error) :=
  match fuel with
  | O => fun _ => None
  | S fuel' =>
      cerr <- CtxErr ;;
      match cerr with
      | Some cerr => ret (Some (Errorfw "code-server didn't start in time: %w" [] cerr))
      | None =>
          r <- Get url (3 * Second) ;;
          match r with
          | Err _ => sshCode_loop fuel' url
          | Ok _ => emit EvBodyClose ;;; ret None
          end
      end
  end.

(** The readiness probe of [sshCode]: the context with the deadline, the
    client with its own timeout, and the loop. *)
Definition sshCode_probe (fuel : nat) (url : string) : M (option error) :=
  emit (EvWithTimeout (15 * Second)) ;;;
  sshCode_loop fuel url.

Definition sshCode (fuel : nat) (host dir : string) (o : options) : M (option error) :=
  Info "ensuring code-server is updated..." ;;;
  r <- parseHost host ;;
  match r with
  | Err err => ret (Some (Errorfw "failed to parse host IP: %w" [] err))
  | Ok (host, extraSSHFlags) =>
  let o_sshFlags :=
    if negb (extraSSHFlags =? "")%string
    then strings.Join [extraSSHFlags; sshFlags o] " " else sshFlags o in
  r <- parseBindAddr (bindAddr o) ;;
  match r with
  | Err err => ret (Some (Errorfw "failed to parse bind address: %w" [] err))
  | Ok o_bindAddr =>
  r <- (if (remotePort o =? "")%string then randomPort else ret (Ok (remotePort o))) ;;
  match r with
  | Err err => ret (Some (Errorfw "failed to find available remote port: %w" [] err))
  | Ok o_remotePort =>
  let dlScript := downloadScript codeServerPath in
  let sshCmdStr := "ssh " ++ o_sshFlags ++ " " ++ host ++ " /bin/bash" in
  err <- Run "sh" ["-c"; sshCmdStr] (Some dlScript) ;;
  match err with
  | Some err =>
      ret (Some (Errorfw
        ("failed to update code-server: " ++ nl ++ "---ssh cmd---" ++ nl ++ "%s" ++ nl
         ++ "---download script---" ++ nl ++ "%s: %w") [sshCmdStr; dlScript] err))
  | None =>
  r <- (if negb (skipSync o) then
          Info "syncing settings" ;;;
          err <- syncUserSettings o_sshFlags host false ;;
          match err with
          | Some err => ret (Some (Errorfw "failed to sync settings: %w" [] err))
          | None =>
              Info "synced settings in %s" ;;;
              Info "syncing extensions" ;;;
              err <- syncExtensions o_sshFlags host false ;;
              match err with
              | Some err => ret (Some (Errorfw "failed to sync extensions: %w" [] err))
              | None => Info "synced extensions in %s" ;;; ret None
              end
          end
        else ret None) ;;
  match r with
  | Some err => ret (Some err)
  | None =>
  Info "starting code-server..." ;;;
  Info "Tunneling remote port %v to %v" ;;;
  let sshCmdStr :=
    "ssh -tt -q -L " ++ o_bindAddr ++ ":localhost:" ++ o_remotePort ++ " "
    ++ o_sshFlags ++ " " ++ host ++ " 'cd " ++ dir ++ "; " ++ codeServerPath
    ++ " --host 127.0.0.1 --allow-http --no-auth --port=" ++ o_remotePort ++ "'" in
  err <- Start "sh" ["-c"; sshCmdStr] ;;
  match err with
  | Some err => ret (Some (Errorfw "failed to start code-server: %w" [] err))
  | None =>
  let url := "http://" ++ o_bindAddr in
  perr <- sshCode_probe fuel url ;;
  match perr with
  | Some err => ret (Some err)
  | None =>
  (if negb (noOpen o) then openBrowser url else ret tt) ;;;
  Select ;;;
  if negb (syncBack o) || skipSync o then
    Info "shutting down" ;;; ret None
  else
    Info "synchronizing VS Code back to local" ;;;
    err <- syncExtensions o_sshFlags host true ;;
    match err with
    | Some err => ret (Some (Errorfw "failed to sync extensions back: %w" [] err))
    | None =>
        err <- syncUserSettings o_sshFlags host true ;;
        match err with
        | Some err =>
            ret (Some (Errorfw "failed to sync user settings settings back: %w" [] err))
        | None => ret None
        end
    end
  end end end end end end end.

End Program.

(** ** Worlds to run the program in

    [calm] answers every request with success: the cloud helper prints the
    command line given to it, every port is free, the server answers the
    first request with the given status, and the user ends the session.
    The variants change one answer each. *)

Definition calm (helper : string) (status : Z) : World := {|
  rand_Intn := fun _ n => 7056 mod n;
  net_Listen := fun _ _ _ => None;
  exec_CombinedOutput := fun _ _ _ => (helper, None);
  exec_Run := fun _ _ _ _ => None;
  exec_Start := fun _ _ _ => None;
  exec_LookPath := fun _ _ => None;
  os_Stat := fun _ _ => None;
  os_IsNotExist := fun _ => false;
  os_MkdirAll := fun _ _ _ => None;
  configDir := fun _ => Ok "/home/u/.config/Code/User";
  extensionsDir := fun _ => Ok "/home/u/.vscode/extensions";
  ctx_Err := fun _ => None;
  http_Get := fun _ _ _ => Ok {| StatusCode := status |};
  browser_OpenURL := fun _ _ => None;
  select_first := fun _ => UserInterrupted;
  filepath_Dir := fun _ => "~/.cache/sshcode"
|}.

Definition gcloud_line : string := "/usr/bin/ssh -i key.pem user@10.0.0.5".

(** ** Notions used in the statements *)

(** The request that [parseHost] makes for a host with the cloud prefix. *)
Definition gcp_command (host : string) : string :=
  "gcloud compute ssh --dry-run "
  ++ strings.TrimPrefix (strings.TrimSpace host) "gcp:".

Definition no_space (t : string) : Prop := has_byte " " t = false.

(** [at_field tok addr]: [addr] is the whole of [tok] when [tok] has no at
    sign, and otherwise the part of [tok] between its first at sign and the
    next one, or the end. *)
Inductive at_field : string -> string -> Prop :=
| at_field_whole tok :
    has_byte "@" tok = false -> at_field tok tok
| at_field_second user addr rest :
    has_byte "@" user = false ->
    has_byte "@" addr = false ->
    rest = "" \/ net.first_is rest "@" = true ->
    at_field (user ++ "@" ++ addr ++ rest) addr.

(** In the words of the specification: the part of a token after its last
    at sign, the whole token when there is none. *)
Definition after_last_at (tok : string) : string :=
  let i := net.last tok "@" in
  if i <? 0 then tok else net.after (i + 1) tok.

(** In the words of the specification: the tokens of an output are its
    maximal runs of bytes that are not white space.  [cur] is the token
    being read. *)
Fixpoint whitespace_tokens_from (cur s : string) : list string :=
  match s with
  | "" => if (cur =? "")%string then [] else [cur]
  | String c r =>
      if strings.space1 c then
        if (cur =? "")%string then whitespace_tokens_from "" r
        else cur :: whitespace_tokens_from "" r
      else whitespace_tokens_from (cur ++ String c "") r
  end.

Definition whitespace_tokens (s : string) : list string :=
  whitespace_tokens_from "" s.

(** The contract of [rand.Intn]: a number in the half-open interval from 0
    to [n]. *)
Definition rand_contract (w : World) : Prop :=
  forall (tr : trace) (n : Z), 0 < n -> 0 <= rand_Intn w tr n < n.

Definition in_port_range (p : Z) : Prop := minPort <= p <= maxPort.

(** The events of one try of [randomPort] on port [p]: a try whose bind
    failed with [e], and a try whose bind succeeded. *)
Definition failed_try (pe : Z * error) : list event :=
  let '(p, e) := pe in
  [EvIntn (maxPort - minPort + 1) (p - minPort);
   EvListen "tcp" (":" ++ strconv.Itoa p) (Some e);
   EvInfo "port taken: %d"].

Definition good_try (p : Z) : list event :=
  [EvIntn (maxPort - minPort + 1) (p - minPort);
   EvListen "tcp" (":" ++ strconv.Itoa p) None;
   EvClose (":" ++ strconv.Itoa p)].

Definition NoFreePortError : error :=
  Errorf "max number of tries exceeded: %d" ["10"].

(** A world in which every port is taken. *)
Definition crowded : World := {|
  rand_Intn := fun tr n => Z.of_nat (List.length tr) mod n;
  net_Listen := fun _ _ _ => Some (Foreign "bind: address already in use");
  exec_CombinedOutput := fun _ _ _ => ("", None);
  exec_Run := fun _ _ _ _ => None;
  exec_Start := fun _ _ _ => None;
  exec_LookPath := fun _ _ => None;
  os_Stat := fun _ _ => None;
  os_IsNotExist := fun _ => false;
  os_MkdirAll := fun _ _ _ => None;
  configDir := fun _ => Ok "/home/u/.config/Code/User";
  extensionsDir := fun _ => Ok "/home/u/.vscode/extensions";
  ctx_Err := fun _ => None;
  http_Get := fun _ _ _ => Ok {| StatusCode := 200 |};
  browser_OpenURL := fun _ _ => None;
  select_first := fun _ => UserInterrupted;
  filepath_Dir := fun _ => "~/.cache/sshcode"
|}.

Definition no_brackets (s : string) : Prop :=
  has_byte "[" s = false /\ has_byte "]" s = false.

Definition no_colon (s : string) : Prop := has_byte ":" s = false.

(** [adds m Q]: whenever [m] returns, the trace has only grown, and [Q]
    holds of the value and of the events added. *)
Definition adds {A} (m : M A) (Q : A -> list event -> Prop) : Prop :=
  forall tr a tr', m tr = Some (a, tr') ->
                   exists evs, tr' = (tr ++ evs)%list /\ Q a evs.

(** [only P m]: every event that [m] adds satisfies [P]. *)
Definition only {A} (P : event -> Prop) (m : M A) : Prop :=
  adds m (fun _ evs => Forall P evs).

(** The events that mark the stages of a session: the bootstrap command
    (the one run with a script on its standard input), the calls of the two
    sync functions, the closed body of the answer that ended the readiness
    loop, an error line in the log, and the end of the [Running] state. *)
Definition staged (e : event) : bool :=
  match e with
  | EvRun _ _ (Some _) _ => true
  | EvSync _ _ _ => true
  | EvBodyClose => true
  | EvError _ => true
  | EvSelect _ => true
  | _ => false
  end.

Definition stages (tr : list event) : list event := filter staged tr.

Definition unstaged (e : event) : Prop := staged e = false.

Definition is_sync (e : event) : bool :=
  match e with EvSync _ _ _ => true | _ => false end.

Definition syncs (tr : list event) : list event := filter is_sync tr.

(** The argument list of the sync transport, in the words of the
    specification: the exclusion flags, the fixed flags with the connector,
    then the source and the destination. *)
Definition transport_args (excludes : list string) (flags src dest : string)
  : list string :=
  List.app (map (fun p => "--exclude=" ++ p) excludes)
    ["-azvr"; "-e"; "ssh " ++ flags; "-u"; "--times"; "--delete";
     "--copy-unsafe-links"; src; dest].

(** [sync_transport excludes remoteDir flags host back e]: if [e] runs a
    command, the command is the transport, without standard input, with the
    given exclusions and flags, between a local directory written with a
    trailing separator and [host:remoteDir]; the remote side is the source
    when [back] is set and the destination otherwise. *)
Definition sync_transport (excludes : list string) (remoteDir flags host : string)
           (back : bool) (e : event) : Prop :=
  match e with
  | EvRun name args stdin _ =>
      name = "rsync" /\ stdin = None
      /\ exists localDir,
           args = transport_args excludes flags
                    (if back then host ++ ":" ++ remoteDir else localDir ++ "/")
                    (if back then localDir ++ "/" else host ++ ":" ++ remoteDir)
  | _ => True
  end.

Definition settings_transport : string -> string -> bool -> event -> Prop :=
  sync_transport ["workspaceStorage"; "logs"; "CachedData"] remoteSettingsDir.

Definition extensions_transport : string -> string -> bool -> event -> Prop :=
  sync_transport [] remoteExtensionsDir.

(** Every run of the transport is a settings or an extensions transfer. *)
Definition transport_shape (e : event) : Prop :=
  match e with
  | EvRun name _ _ _ =>
      name = "rsync" ->
      exists flags host back,
        settings_transport flags host back e \/ extensions_transport flags host back e
  | _ => True
  end.

(** One turn of the readiness loop whose request failed with [e]. *)
Definition failed_attempt (url : string) (e : error) : list event :=
  [EvCtxErr None; EvGet url (3 * Second) (Err e)].

Definition TimeoutError (cause : error) : error :=
  Errorfw "code-server didn't start in time: %w" [] cause.

(** The deadline is honoured within [n] requests: once the trace holds [n]
    events, [ctx.Err()] is set. *)
Definition deadline_by (w : World) (n : nat) : Prop :=
  forall tr, (n <= List.length tr)%nat -> ctx_Err w tr <> None.

(** A world whose server never answers and whose deadline passes after six
    requests. *)
Definition silent : World := {|
  rand_Intn := fun _ n => 7056 mod n;
  net_Listen := fun _ _ _ => None;
  exec_CombinedOutput := fun _ _ _ => ("", None);
  exec_Run := fun _ _ _ _ => None;
  exec_Start := fun _ _ _ => None;
  exec_LookPath := fun _ _ => None;
  os_Stat := fun _ _ => None;
  os_IsNotExist := fun _ => false;
  os_MkdirAll := fun _ _ _ => None;
  configDir := fun _ => Ok "/home/u/.config/Code/User";
  extensionsDir := fun _ => Ok "/home/u/.vscode/extensions";
  ctx_Err := fun tr => if (6 <=? List.length tr)%nat then Some DeadlineExceeded else None;
  http_Get := fun _ _ _ => Err (Foreign "connection refused");
  browser_OpenURL := fun _ _ => None;
  select_first := fun _ => UserInterrupted;
  filepath_Dir := fun _ => "~/.cache/sshcode"
|}.

(** Options that ask for everything: sync in, the browser, sync back, and
    ports to be chosen. *)
Definition everything : options := {|
  skipSync := false; syncBack := true; noOpen := false;
  bindAddr := ""; remotePort := ""; sshFlags := "-p 22"
|}.

(** The outcomes of the sync-in stage, as the sync calls noted in the trace
    and the error that ends the session there, if any. *)
Definition pushed (evs : list event) (res : option error) : Prop :=
  (exists e, evs = [EvSync Settings false (Some e)]
             /\ res = Some (Errorfw "failed to sync settings: %w" [] e))
  \/ (exists e, evs = [EvSync Settings false None; EvSync Extensions false (Some e)]
                /\ res = Some (Errorfw "failed to sync extensions: %w" [] e))
  \/ (evs = [EvSync Settings false None; EvSync Extensions false None]
      /\ res = None).

(** The outcomes of the sync-back stage, with the result of the session. *)
Definition pulled (evs : list event) (res : option error) : Prop :=
  (exists e, evs = [EvSync Extensions true (Some e)]
             /\ res = Some (Errorfw "failed to sync extensions back: %w" [] e))
  \/ (exists e, evs = [EvSync Extensions true None; EvSync Settings true (Some e)]
                /\ res = Some (Errorfw "failed to sync user settings settings back: %w" [] e))
  \/ (evs = [EvSync Extensions true None; EvSync Settings true None]
      /\ res = None).

Definition sync_in_part (o : options) (evs : list event) (res : option error) : Prop :=
  if skipSync o then evs = [] /\ res = None else pushed evs res.

Definition sync_back_part (o : options) (evs : list event) (res : option error) : Prop :=
  if negb (syncBack o) || skipSync o then evs = [] /\ res = None else pulled evs res.

Definition browser_failed : event := EvError "failed to open browser: %v".

(** What [openBrowser] adds to the trace: the lookups, in the order of the
    [switch], then the launch, and after a launch that failed the line in
    the log. *)
Inductive browser_events (url : string) : list event -> Prop :=
| browser_lookpath file err rest :
    browser_events url rest -> browser_events url (EvLookPath file err :: rest)
| browser_stat name err rest :
    browser_events url rest -> browser_events url (EvStat name err :: rest)
| browser_started name :
    browser_events url [EvStart name (chromeOptions url) None]
| browser_not_started name e :
    browser_events url [EvStart name (chromeOptions url) (Some e); browser_failed]
| browser_opened :
    browser_events url [EvOpenURL url None]
| browser_not_opened e :
    browser_events url [EvOpenURL url (Some e); browser_failed].

(** The stages of a session, as they show in the trace, with its result:
    the session stopped before the bootstrap; the bootstrap failed; sync-in
    failed; the tunnel did not start or the probe timed out; or the session
    went through the probe, the browser (whose failure leaves a line in the
    log), the end of [Running] and sync-back. *)
Inductive session (o : options) (res : option error) : list event -> Prop :=
| stopped_resolving :
    res <> None -> session o res []
| stopped_bootstrap args script e :
    res <> None -> session o res [EvRun "sh" args (Some script) (Some e)]
| stopped_sync_in args script e1 :
    sync_in_part o e1 res -> res <> None ->
    session o res (EvRun "sh" args (Some script) None :: e1)
| stopped_tunnel args script e1 :
    sync_in_part o e1 None -> res <> None ->
    session o res (EvRun "sh" args (Some script) None :: e1)
| finished args script e1 eb sig e2 :
    sync_in_part o e1 None ->
    eb = [] \/ (noOpen o = false /\ eb = [browser_failed]) ->
    sync_back_part o e2 res ->
    session o res (EvRun "sh" args (Some script) None
                     :: e1 ++ [EvBodyClose] ++ eb ++ [EvSelect sig] ++ e2)%list.

(** A world without a browser: no command is found, no path exists, and the
    launcher of last resort fails. *)
Definition headless : World := {|
  rand_Intn := fun _ n => 7056 mod n;
  net_Listen := fun _ _ _ => None;
  exec_CombinedOutput := fun _ _ _ => ("", None);
  exec_Run := fun _ _ _ _ => None;
  exec_Start := fun _ _ _ => None;
  exec_LookPath := fun _ _ => Some (Foreign "executable file not found in $PATH");
  os_Stat := fun _ _ => Some (Foreign "no such file or directory");
  os_IsNotExist := fun e => negb (is_nil e);
  os_MkdirAll := fun _ _ _ => None;
  configDir := fun _ => Ok "/home/u/.config/Code/User";
  extensionsDir := fun _ => Ok "/home/u/.vscode/extensions";
  ctx_Err := fun _ => None;
  http_Get := fun _ _ _ => Ok {| StatusCode := 200 |};
  browser_OpenURL := fun _ _ => Some (Foreign "exec: xdg-open: not found");
  select_first := fun _ => TunnelEnded;
  filepath_Dir := fun _ => "~/.cache/sshcode"
|}.

(** Options that ask for the browser only. *)
Definition browser_only : options := {|
  skipSync := true; syncBack := false; noOpen := false;
  bindAddr := "127.0.0.1:8080"; remotePort := "9000"; sshFlags := ""
|}.

Definition is_select (e : event) : bool :=
  match e with EvSelect _ => true | _ => false end.

(** Options that disable sync and still ask for sync-back. *)
Definition skip_with_back : options := {|
  skipSync := true; syncBack := true; noOpen := true;
  bindAddr := "127.0.0.1:8080"; remotePort := "9000"; sshFlags := ""
|}.

(** ** Notions for the rest of the file *)

(** The sync function of an asset class, the request for its local
    directory, its exclusions and its remote directory. *)
Definition sync_of (what : Asset) : World -> string -> string -> bool -> M (option error) :=
  match what with
  | Settings => syncUserSettings
  | Extensions => syncExtensions
  end.

Definition dir_event (what : Asset) (r : result string) : event :=
  match what with
  | Settings => EvConfigDir r
  | Extensions => EvExtensionsDir r
  end.

Definition sync_excludes (what : Asset) : list string :=
  match what with
  | Settings => ["workspaceStorage"; "logs"; "CachedData"]
  | Extensions => []
  end.

Definition sync_remote (what : Asset) : string :=
  match what with
  | Settings => remoteSettingsDir
  | Extensions => remoteExtensionsDir
  end.

(** [ensured w dir ens res]: [ens] are the events of [ensureDir] on [dir]
    with result [res]: the directory is looked at, and created, with mode
    0750, only when the look says that it does not exist. *)
Definition ensured (w : World) (dir : string) (ens : list event) (res : option error)
  : Prop :=
  (ens = [EvStat dir res] /\ os_IsNotExist w res = false)
  \/ (exists st, ens = [EvStat dir st; EvMkdirAll dir 488 res]
                 /\ os_IsNotExist w st = true).

Definition rsync_error (src dest : string) (rr : option error) : option error :=
  match rr with
  | None => None
  | Some e => Some (Errorfw "failed to rsync '%s' to '%s': %w" [src; dest] e)
  end.

(** The browsers that [openBrowser] looks for, in its order: a command to
    be found on the path ([true]) or a file to exist ([false]). *)
Definition browser_candidates : list (bool * string) :=
  [(true, "google-chrome"); (true, "google-chrome-stable"); (true, "chromium");
   (true, "chromium-browser"); (false, macPath); (false, wslPath)].

Definition looked (c : bool * string) (err : option error) : event :=
  if fst c then EvLookPath (snd c) err else EvStat (snd c) err.

Definition launch_log (r : option error) : list event :=
  match r with
  | Some _ => [browser_failed]
  | None => []
  end.

(** The errors of the failed lookups at the front of a list of events. *)
Fixpoint misses_of (evs : list event) : list error :=
  match evs with
  | EvLookPath _ (Some e) :: rest => e :: misses_of rest
  | EvStat _ (Some e) :: rest => e :: misses_of rest
  | _ => []
  end.

(** The events that mark the way of a session in more detail than its
    stages: also the call of the cloud helper, the start of the tunnel and
    the first lookup of a browser. *)
Definition marked (e : event) : bool :=
  match e with
  | EvCombinedOutput _ _ _ _ => true
  | EvRun _ _ (Some _) _ => true
  | EvSync _ _ _ => true
  | EvStart name _ _ => (name =? "sh")%string
  | EvBodyClose => true
  | EvLookPath file _ => (file =? "google-chrome")%string
  | EvError _ => true
  | EvSelect _ => true
  | _ => false
  end.

Definition marks (tr : list event) : list event := filter marked tr.

Definition unmarked (e : event) : Prop := marked e = false.

(** The marks of host resolution: the one call of the helper for a host
    with the cloud prefix, nothing otherwise. *)
Definition resolve_marks (host : string) (evs : list event) : Prop :=
  if strings.HasPrefix (strings.TrimSpace host) "gcp:"
  then exists out herr,
         evs = [EvCombinedOutput "sh" ["-c"; gcp_command host] out herr]
  else evs = [].

(** The marks of the browser step: nothing when it is suppressed, else the
    first lookup and, after a failed launch, the line in the log. *)
Definition browser_marks (o : options) (evs : list event) : Prop :=
  if noOpen o then evs = []
  else exists err, evs = [EvLookPath "google-chrome" err]
                   \/ evs = [EvLookPath "google-chrome" err; browser_failed].

Definition bootstrap_failed_format : string :=
  "failed to update code-server: " ++ nl ++ "---ssh cmd---" ++ nl ++ "%s" ++ nl
  ++ "---download script---" ++ nl ++ "%s: %w".

(** The way of a session after host resolution, by its marks, with the
    result: where it stopped and with which error, or that it ran. *)
Inductive journey (o : options) (res : option error) : list event -> Prop :=
| j_unresolved c :
    res = Some (Errorfw "failed to parse host IP: %w" [] c) -> journey o res []
| j_no_address c :
    res = Some (Errorfw "failed to parse bind address: %w" [] c) -> journey o res []
| j_no_port c :
    res = Some (Errorfw "failed to find available remote port: %w" [] c) ->
    journey o res []
| j_no_bootstrap args script c :
    res = Some (Errorfw bootstrap_failed_format [nth 1 args ""; script] c) ->
    journey o res [EvRun "sh" args (Some script) (Some c)]
| j_no_sync_in args script e1 :
    sync_in_part o e1 res -> res <> None ->
    journey o res (EvRun "sh" args (Some script) None :: e1)
| j_no_tunnel args script e1 targs c :
    sync_in_part o e1 None ->
    res = Some (Errorfw "failed to start code-server: %w" [] c) ->
    journey o res (EvRun "sh" args (Some script) None
                     :: e1 ++ [EvStart "sh" targs (Some c)])%list
| j_timeout args script e1 targs c :
    sync_in_part o e1 None ->
    res = Some (TimeoutError c) ->
    journey o res (EvRun "sh" args (Some script) None
                     :: e1 ++ [EvStart "sh" targs None])%list
| j_ran args script e1 targs eb sig e2 :
    sync_in_part o e1 None ->
    browser_marks o eb ->
    sync_back_part o e2 res ->
    journey o res (EvRun "sh" args (Some script) None
                     :: e1 ++ [EvStart "sh" targs None; EvBodyClose]
                        ++ eb ++ [EvSelect sig] ++ e2)%list.


Definition is_tunnel_start (e : event) : bool :=
  match e with
  | EvStart name _ _ => (name =? "sh")%string
  | _ => false
  end.

Definition is_helper (e : event) : bool :=
  match e with
  | EvCombinedOutput _ _ _ _ => true
  | _ => false
  end.

(** What a session without a browser step may add to the trace: no lookup
    of a command, no launch other than that of the tunnel, no line of
    error in the log. *)
Definition not_browser (e : event) : Prop :=
  match e with
  | EvLookPath _ _ => False
  | EvOpenURL _ _ => False
  | EvError _ => False
  | EvStart name _ _ => name = "sh"
  | _ => True
  end.

(** The two command lines that [sshCode] builds. *)
Definition bootstrap_command (flags host : string) : string :=
  "ssh " ++ flags ++ " " ++ host ++ " /bin/bash".

Definition tunnel_command (addr port flags host dir : string) : string :=
  "ssh -tt -q -L " ++ addr ++ ":localhost:" ++ port ++ " "
  ++ flags ++ " " ++ host ++ " 'cd " ++ dir ++ "; " ++ codeServerPath
  ++ " --host 127.0.0.1 --allow-http --no-auth --port=" ++ port ++ "'".

(** The flags of a session: the extra flags of the resolver, when there are
    any, then a space, then the flags of the user. *)
Definition session_flags (extra : string) (o : options) : string :=
  if (extra =? "")%string then sshFlags o else extra ++ " " ++ sshFlags o.

(** An event that names no host, flags, address or port. *)
Definition plain (e : event) : Prop :=
  match e with
  | EvRun _ _ _ _ => False
  | EvStart _ _ _ => False
  | EvGet _ _ _ => False
  | EvOpenURL _ _ => False
  | _ => True
  end.

(** [session_event h f addr port dir e]: if [e] runs or starts a command,
    asks for a page or opens one, it does so for the host [h] with the flags
    [f], the local address [addr], the remote port [port] and the directory
    [dir]. *)
Definition session_event (h f addr port dir : string) (e : event) : Prop :=
  match e with
  | EvRun name args stdin _ =>
      (name = "sh" /\ args = ["-c"; bootstrap_command f h] /\ stdin <> None)
      \/ (exists back, settings_transport f h back e \/ extensions_transport f h back e)
  | EvStart name args _ =>
      (name = "sh" /\ args = ["-c"; tunnel_command addr port f h dir])
      \/ (name <> "sh" /\ args = chromeOptions ("http://" ++ addr))
  | EvGet url timeout _ => url = "http://" ++ addr /\ timeout = 3 * Second
  | EvOpenURL url _ => url = "http://" ++ addr
  | _ => True
  end.

(** The part of it that concerns the remote side: every [ssh] and every
    transport of the session goes to the host [h] with the flags [f]. *)
Definition ssh_target (h f dir : string) (e : event) : Prop :=
  match e with
  | EvRun name args stdin _ =>
      (name = "sh" /\ args = ["-c"; bootstrap_command f h])
      \/ (exists back, settings_transport f h back e \/ extensions_transport f h back e)
  | EvStart name args _ =>
      name = "sh" ->
      exists addr port, args = ["-c"; tunnel_command addr port f h dir]
  | _ => True
  end.

(** The part of it that concerns the local side: the tunnel listens on
    [addr] and forwards to [port], and the probe and the browser use the
    URL of [addr]. *)
Definition wired (addr port : string) (e : event) : Prop :=
  match e with
  | EvStart name args _ =>
      (name = "sh"
       /\ exists f h dir, args = ["-c"; tunnel_command addr port f h dir])
      \/ (name <> "sh" /\ args = chromeOptions ("http://" ++ addr))
  | EvGet url timeout _ => url = "http://" ++ addr /\ timeout = 3 * Second
  | EvOpenURL url _ => url = "http://" ++ addr
  | _ => True
  end.

Definition no_probe (e : event) : Prop :=
  match e with
  | EvIntn _ _ => False
  | EvListen _ _ _ => False
  | EvClose _ => False
  | _ => True
  end.

(** The first event of every session. *)
Definition greeting : event := EvInfo "ensuring code-server is updated...".

(** * Properties *)

(** ** Byte strings *)

Lemma has_byte_app c a b : has_byte c (a ++ b) = has_byte c a || has_byte c b.
Proof.
  induction a as [|x a IH]; simpl; [reflexivity|].
  destruct (Ascii.eqb x c); [reflexivity | exact IH].
Qed.

Lemma append_nil_r (s : string) : s ++ "" = s.
Proof. induction s as [|c s IH]; simpl; [reflexivity | now rewrite IH]. Qed.

Lemma append_assoc (a b c : string) : (a ++ b) ++ c = a ++ (b ++ c).
Proof. induction a as [|x a IH]; simpl; [reflexivity | now rewrite IH]. Qed.

Lemma length_append (a b : string) :
  String.length (a ++ b) = (String.length a + String.length b)%nat.
Proof. induction a as [|x a IH]; simpl; [reflexivity | now rewrite IH]. Qed.

(** ** [strings.Split] and [strings.Join] *)

Lemma Split_not_nil s sep : strings.Split s sep <> [].
Proof.
  destruct s as [|c r]; simpl; [discriminate|].
  destruct (Ascii.eqb c sep); [discriminate|].
  destruct (strings.Split r sep); discriminate.
Qed.

(** A string without the separator is its own single token. *)
Lemma Split_without s sep : has_byte sep s = false -> strings.Split s sep = [s].
Proof.
  induction s as [|c r IH]; simpl; [reflexivity|].
  destruct (Ascii.eqb c sep); [discriminate|].
  intros H. now rewrite (IH H).
Qed.

(** The first token ends at the first separator. *)
Lemma Split_at_first u r sep :
  has_byte sep u = false ->
  strings.Split (u ++ String sep r) sep = u :: strings.Split r sep.
Proof.
  induction u as [|c u IH]; simpl.
  - intros _. now rewrite Ascii.eqb_refl.
  - destruct (Ascii.eqb c sep); [discriminate|].
    intros H. now rewrite (IH H).
Qed.

(** Splitting undoes joining when no token holds the separator. *)
Lemma Split_Join toks sep :
  toks <> [] ->
  Forall (fun t => has_byte sep t = false) toks ->
  strings.Split (strings.Join toks (String sep "")) sep = toks.
Proof.
  induction toks as [|t rest IH]; [congruence|].
  intros _ H. inversion H as [|? ? Ht Hrest]; subst.
  destruct rest as [|t' rest'].
  - simpl. now apply Split_without.
  - change (strings.Join (t :: t' :: rest') (String sep ""))
      with (t ++ String sep (strings.Join (t' :: rest') (String sep ""))).
    rewrite (Split_at_first _ _ _ Ht), IH; [reflexivity | discriminate | assumption].
Qed.

Lemma Split_length_one s sep :
  (List.length (strings.Split s sep) <? 2)%nat = true <-> has_byte sep s = false.
Proof.
  split.
  - induction s as [|c r IH]; simpl; [reflexivity|].
    destruct (Ascii.eqb c sep).
    + simpl. pose proof (Split_not_nil r sep).
      destruct (strings.Split r sep); [congruence | discriminate].
    + pose proof (Split_not_nil r sep).
      destruct (strings.Split r sep) as [|t ts]; simpl in *; [congruence | exact IH].
  - intros H. now rewrite (Split_without _ _ H).
Qed.

(** ** [parseHost] and [parseGCPSSHCmd] *)

Lemma hd_Split_without u rest sep :
  has_byte sep u = false ->
  rest = "" \/ net.first_is rest sep = true ->
  nth 0 (strings.Split (u ++ rest) sep) "" = u.
Proof.
  intros Hu [-> | Hrest].
  - rewrite append_nil_r, (Split_without _ _ Hu). reflexivity.
  - destruct rest as [|c rest']; [discriminate|]. simpl in Hrest.
    apply Ascii.eqb_eq in Hrest. subst c.
    rewrite (Split_at_first _ _ _ Hu). reflexivity.
Qed.

(** What [parseGCPSSHCmd] picks from the last token. *)
Lemma at_field_picked tok addr :
  at_field tok addr ->
  let toks := strings.Split tok "@" in
  (if (List.length toks <? 2)%nat then nth 0 toks "" else nth 1 toks "") = addr.
Proof.
  intros [t Ht | user a rest Hu Ha Hrest]; cbv zeta.
  - rewrite (Split_without _ _ Ht). reflexivity.
  - change (user ++ "@" ++ a ++ rest) with (user ++ String "@" (a ++ rest)).
    rewrite (Split_at_first _ _ _ Hu).
    pose proof (hd_Split_without a rest "@" Ha Hrest) as Hhd.
    pose proof (Split_not_nil (a ++ rest) "@") as Hne.
    destruct (strings.Split (a ++ rest) "@") as [|x xs]; [congruence|].
    simpl in *. exact Hhd.
Qed.

Lemma last_snoc {A} (l : list A) (a d : A) : List.last (l ++ [a]) d = a.
Proof.
  induction l as [|x l IH]; [reflexivity|].
  simpl. destruct (l ++ [a])%list eqn:E; [destruct l; discriminate | exact IH].
Qed.

Lemma removelast_snoc {A} (l : list A) (a : A) : removelast (l ++ [a]) = l.
Proof.
  induction l as [|x l IH]; [reflexivity|].
  simpl. destruct (l ++ [a])%list eqn:E; [destruct l; discriminate|].
  now rewrite IH.
Qed.

Lemma parseHost_gcp w host tr :
  strings.HasPrefix (strings.TrimSpace host) "gcp:" = true ->
  parseHost w host tr
  = parseGCPSSHCmd w (strings.TrimPrefix (strings.TrimSpace host) "gcp:") tr.
Proof. intros H. unfold parseHost. now rewrite H. Qed.

(** Every string is cut at its first occurrence of a byte, if there is one. *)
Lemma cut_at sep s :
  has_byte sep s = false
  \/ exists u r, s = u ++ String sep r /\ has_byte sep u = false.
Proof.
  induction s as [|c s IH]; [left; reflexivity|].
  simpl. destruct (Ascii.eqb_spec c sep) as [->|Hne].
  - right. exists "", s. split; reflexivity.
  - destruct IH as [H | (u & r & -> & Hu)]; [left; exact H|].
    right. exists (String c u), r. split; [reflexivity|].
    simpl. destruct (Ascii.eqb_spec c sep); [contradiction | exact Hu].
Qed.

(** Every token has an address field. *)
Lemma at_field_total tok : exists addr, at_field tok addr.
Proof.
  destruct (cut_at "@" tok) as [H | (user & rest0 & -> & Hu)].
  - exists tok. apply at_field_whole. exact H.
  - destruct (cut_at "@" rest0) as [H | (a & r & -> & Ha)].
    + exists rest0.
      replace (user ++ String "@" rest0) with (user ++ "@" ++ rest0 ++ "")
        by (rewrite append_nil_r; reflexivity).
      apply at_field_second; auto.
    + exists a. apply (at_field_second user a (String "@" r)); auto.
Qed.

(** C7, as the code has it.  Resolving a host with the cloud prefix makes
    one request, the helper command.  The tokens of its output are the
    pieces between single space bytes, and the address is the address field
    of the last token, trimmed of white space.  Resolution fails in exactly
    three cases: the helper returned an error; the output has fewer than two
    tokens; the address is not an IP address.  Each case has its own error,
    the first that applies in this order, and in every other case the
    result is that address with the tokens between the first and the last
    as flags.  An output without a space byte always fails. *)
Theorem resolve_gcp_fails_in_three_cases (w : World) (host : string) (tr : trace) :
  strings.HasPrefix (strings.TrimSpace host) "gcp:" = true ->
  let cmd := gcp_command host in
  let out := fst (exec_CombinedOutput w tr "sh" ["-c"; cmd]) in
  let herr := snd (exec_CombinedOutput w tr "sh" ["-c"; cmd]) in
  let toks := strings.Split out " " in
  let few := (List.length toks <? 2)%nat in
  exists r addr,
    parseHost w host tr
    = Some (r, (tr ++ [EvCombinedOutput "sh" ["-c"; cmd] out herr])%list)
    /\ at_field (List.last toks "") addr
    /\ ((exists e, r = Err e)
        <-> herr <> None \/ few = true
            \/ net.ParseIP (strings.TrimSpace addr) = None)
    /\ match r with
       | Err e =>
           match herr with
           | Some x => e = Errorfw "%s: %w" [out] x
           | None =>
               if few
               then e = Errorf "unexpected output for '%v' command, %s" [cmd; out]
               else e = Errorf "parsed invalid ip address %v" [strings.TrimSpace addr]
           end
       | Ok (ip, flags) =>
           ip = strings.TrimSpace addr
           /\ flags = strings.Join (removelast (tl toks)) " "
       end
    /\ (has_byte " " out = false -> exists e, r = Err e).
Proof.
  intros Hpre cmd out herr toks few.
  destruct (at_field_total (List.last toks "")) as [addr Hat].
  pose proof (at_field_picked _ _ Hat) as Hpick. cbv zeta in Hpick.
  rewrite (parseHost_gcp _ _ _ Hpre).
  unfold parseGCPSSHCmd, CombinedOutput, bind, request.
  fold (gcp_command host). fold cmd.
  subst few toks out herr.
  destruct (exec_CombinedOutput w tr "sh" ["-c"; cmd]) as [o he] eqn:E.
  cbn [fst snd] in *.
  destruct he as [x|].
  - exists (Err (Errorfw "%s: %w" [o] x)), addr.
    split; [reflexivity|]. split; [exact Hat|]. split; [|split; [reflexivity | eauto]].
    split; [intros _; left; discriminate | eauto].
  - destruct (List.length (strings.Split o " ") <? 2)%nat eqn:Hfew.
    + eexists; exists addr.
      split; [reflexivity|]. split; [exact Hat|]. split; [|split; [reflexivity | eauto]].
      split; [intros _; right; left; reflexivity | eauto].
    + match goal with
      | |- context [net.ParseIP ?i] => replace i with (strings.TrimSpace addr)
      end.
      2:{ destruct (List.length (strings.Split _ "@") <? 2)%nat; now rewrite Hpick. }
      destruct (net.ParseIP (strings.TrimSpace addr)) as [ip|] eqn:Hip.
      * eexists; exists addr.
        split; [reflexivity|]. split; [exact Hat|]. split; [|split].
        -- split; [intros [e He]; discriminate He|].
           intros [H | [H | H]]; congruence.
        -- split; reflexivity.
        -- intros Hno. apply Split_length_one in Hno. congruence.
      * eexists; exists addr.
        split; [reflexivity|]. split; [exact Hat|]. split; [|split; [reflexivity | eauto]].
        split; [intros _; right; right; exact Hip | eauto].
Qed.

(** The helper prints a single token: resolution fails. *)
Lemma resolve_gcp_fails_in_three_cases_witness :
  exists r,
    parseHost (calm "10.0.0.5" 200) "gcp:vm" []
    = Some (r, [EvCombinedOutput "sh" ["-c"; "gcloud compute ssh --dry-run vm"]
                  "10.0.0.5" None])
    /\ exists e, r = Err e.
Proof.
  destruct (resolve_gcp_fails_in_three_cases (calm "10.0.0.5" 200) "gcp:vm" [] eq_refl)
    as (r & addr & Hrun & _ & _ & _ & Hone).
  exists r. split; [exact Hrun | exact (Hone eq_refl)].
Defined.

(** C7, as the specification words it, fails: an output that is a single
    token between white space, here an address after one space, has two
    pieces between space bytes, the first of them empty, and resolves. *)
Lemma resolve_gcp_single_token_resolves :
  let out := " 10.0.0.5" in
  whitespace_tokens out = ["10.0.0.5"]
  /\ strings.Split out " " = [""; "10.0.0.5"]
  /\ parseHost (calm out 200) "gcp:vm" []
     = Some (Ok ("10.0.0.5", ""),
             [EvCombinedOutput "sh" ["-c"; "gcloud compute ssh --dry-run vm"] out None]).
Proof. repeat split; reflexivity. Qed.

(** C3, as the code has it.  When the helper succeeds and prints tokens
    separated by single spaces, at least two of them, and the address taken
    from the last token is an IP address, resolution succeeds: the address is
    the last token's part between its first at sign and the next one or the
    end (the whole token without an at sign), trimmed of white space, and the
    extra flags are the tokens strictly between the first and the last,
    joined by single spaces.  The second part is the example of the
    specification. *)
Theorem resolve_gcp_address_and_flags :
  (forall (w : World) (host : string) (tr : trace)
          (first : string) (mid : list string) (tok addr : string),
      strings.HasPrefix (strings.TrimSpace host) "gcp:" = true ->
      exec_CombinedOutput w tr "sh" ["-c"; gcp_command host]
      = (strings.Join (first :: mid ++ [tok]) " ", None) ->
      Forall no_space (first :: mid ++ [tok]) ->
      at_field tok addr ->
      net.ParseIP (strings.TrimSpace addr) <> None ->
      parseHost w host tr
      = Some (Ok (strings.TrimSpace addr, strings.Join mid " "),
              (tr ++ [EvCombinedOutput "sh" ["-c"; gcp_command host]
                        (strings.Join (first :: mid ++ [tok]) " ") None])%list))
  /\ parseHost (calm "/usr/bin/ssh -i key.pem user@10.0.0.5" 200) "gcp:vm" []
     = Some (Ok ("10.0.0.5", "-i key.pem"),
             [EvCombinedOutput "sh" ["-c"; "gcloud compute ssh --dry-run vm"]
                "/usr/bin/ssh -i key.pem user@10.0.0.5" None]).
Proof.
  split; [|reflexivity].
  intros w host tr first mid tok addr Hpre Hout Hsp Hat Hip.
  set (toks := first :: mid ++ [tok]) in *.
  assert (Hsplit : strings.Split (strings.Join toks " ") " " = toks)
    by (apply Split_Join; [discriminate | exact Hsp]).
  assert (Hlen : (List.length toks <? 2)%nat = false).
  { apply Nat.ltb_ge. subst toks. simpl. rewrite length_app. simpl. lia. }
  assert (Hmid : removelast (tl toks) = mid) by apply removelast_snoc.
  assert (Hlast : List.last toks "" = tok) by apply (last_snoc (first :: mid)).
  pose proof (at_field_picked tok addr Hat) as Hpick. cbv zeta in Hpick.
  rewrite (parseHost_gcp _ _ _ Hpre).
  unfold parseGCPSSHCmd, CombinedOutput, bind, request.
  fold (gcp_command host). rewrite Hout. cbn [fst snd].
  rewrite Hsplit, Hlen, Hmid, Hlast.
  match goal with
  | |- context [net.ParseIP ?i] => replace i with (strings.TrimSpace addr)
  end.
  2:{ destruct (List.length (strings.Split tok "@") <? 2)%nat; now rewrite Hpick. }
  destruct (net.ParseIP (strings.TrimSpace addr)); [reflexivity | congruence].
Qed.

(** The general part at an output whose last token has two at signs and ends
    in a newline. *)
Lemma resolve_gcp_address_and_flags_witness :
  let tok := "root@10.1.2.3@x" ++ nl in
  let out := "ssh -p 22 -i key " ++ tok in
  parseHost (calm out 200) "  gcp:vm " []
  = Some (Ok ("10.1.2.3", "-p 22 -i key"),
          [EvCombinedOutput "sh" ["-c"; "gcloud compute ssh --dry-run vm"] out None]).
Proof.
  apply (proj1 resolve_gcp_address_and_flags
           (calm ("ssh -p 22 -i key " ++ "root@10.1.2.3@x" ++ nl) 200) "  gcp:vm " []
           "ssh" ["-p"; "22"; "-i"; "key"] ("root@10.1.2.3@x" ++ nl) "10.1.2.3").
  - reflexivity.
  - reflexivity.
  - repeat constructor.
  - apply (at_field_second "root" "10.1.2.3" ("@x" ++ nl));
      [reflexivity | reflexivity | right; reflexivity].
  - discriminate.
Defined.

(** C3, as the specification words it, fails: for a last token with two at
    signs the code returns the part after the first one, which here is an
    IP address, and not the part after the last one. *)
Lemma resolve_gcp_not_after_last_at :
  let out := "/usr/bin/ssh user@10.0.0.5@10.0.0.9" in
  (2 <= List.length (strings.Split out " "))%nat
  /\ after_last_at (List.last (strings.Split out " ") "") = "10.0.0.9"
  /\ exists flags tr',
       parseHost (calm out 200) "gcp:vm" [] = Some (Ok ("10.0.0.5", flags), tr')
       /\ "10.0.0.5" <> after_last_at (List.last (strings.Split out " ") "").
Proof.
  split; [simpl; lia|]. split; [reflexivity|].
  exists "", [EvCombinedOutput "sh" ["-c"; "gcloud compute ssh --dry-run vm"]
                "/usr/bin/ssh user@10.0.0.5@10.0.0.9" None].
  split; [reflexivity | discriminate].
Qed.

(** ** [randomPort] *)

Lemma rand_contract_ports w tr :
  rand_contract w ->
  in_port_range (rand_Intn w tr (maxPort - minPort + 1) + minPort).
Proof.
  intros H. unfold in_port_range, minPort, maxPort in *.
  specialize (H tr (65535 - 1024 + 1) ltac:(lia)). lia.
Qed.

(** The shape of every run of the loop of [randomPort] from [n] tries left:
    a run of failed tries, [n] of them and the error, or fewer than [n]
    followed by one good try whose port is returned. *)
Lemma randomPort_loop_runs w n tr :
  rand_contract w ->
  exists r evs fails,
    randomPort_loop w n tr = Some (r, (tr ++ evs)%list)
    /\ Forall (fun pe => in_port_range (fst pe)) fails
    /\ ((r = Err NoFreePortError /\ List.length fails = n
         /\ evs = flat_map failed_try fails)
        \/ (exists p, in_port_range p /\ r = Ok (strconv.Itoa p)
                      /\ (List.length fails < n)%nat
                      /\ evs = (flat_map failed_try fails ++ good_try p)%list)).
Proof.
  intros Hw. revert tr. induction n as [|n IH]; intros tr.
  - exists (Err NoFreePortError), [], []. rewrite app_nil_r.
    split; [reflexivity|]. split; [constructor|]. left. auto.
  - cbn [randomPort_loop]. unfold bind, Intn, Listen, Close, Info, emit, request, ret.
    set (r := rand_Intn w tr (maxPort - minPort + 1)).
    pose proof (rand_contract_ports w tr Hw) as Hp. fold r in Hp.
    set (p := r + minPort) in *.
    assert (Hr : r = p - minPort) by (subst p; lia).
    match goal with
    | |- context [net_Listen w ?t ?nw ?a] => destruct (net_Listen w t nw a) as [e|] eqn:El
    end.
    + match goal with
      | |- context [randomPort_loop w n ?t] => destruct (IH t) as (r' & evs & fails & Hrun & Hin & Hsh)
      end.
      exists r', (failed_try (p, e) ++ evs)%list, ((p, e) :: fails).
      split.
      { rewrite Hrun. unfold failed_try. rewrite <- Hr.
        repeat rewrite <- app_assoc. reflexivity. }
      split; [constructor; assumption|].
      destruct Hsh as [(-> & Hlen & ->) | (q & Hq & -> & Hlen & ->)].
      * left. simpl List.length. rewrite Hlen. auto.
      * right. exists q. split; [exact Hq|]. split; [reflexivity|].
        split; [simpl List.length; lia|].
        cbn [flat_map]. now rewrite <- app_assoc.
    + exists (Ok (strconv.Itoa p)), (good_try p), [].
      split.
      { unfold good_try. rewrite <- Hr. repeat rewrite <- app_assoc. reflexivity. }
      split; [constructor|]. right. exists p.
      split; [exact Hp|]. split; [reflexivity|]. split; [simpl; lia | reflexivity].
Qed.

(** C6.  [randomPort] always returns, after at most [maxTries] tries.  Each
    try asks [rand.Intn] for a number below 64512 and adds 1024, which
    reaches every port from 1024 to 65535 and no other, and binds a TCP
    listener on that port.  A failed bind is logged and followed by the next
    try.  A returned port is the decimal form of a port in the range whose
    bind succeeded and whose listener was closed before the return; the
    error is returned only after [maxTries] failed binds. *)
Theorem randomPort_tries (w : World) (tr : trace) :
  rand_contract w ->
  exists r evs fails,
    randomPort w tr = Some (r, (tr ++ evs)%list)
    /\ Forall (fun pe => in_port_range (fst pe)) fails
    /\ (List.length fails <= maxTries)%nat
    /\ match r with
       | Ok s =>
           exists p, in_port_range p /\ s = strconv.Itoa p
                     /\ (List.length fails < maxTries)%nat
                     /\ evs = (flat_map failed_try fails ++ good_try p)%list
       | Err e =>
           e = NoFreePortError /\ List.length fails = maxTries
           /\ evs = flat_map failed_try fails
       end
    /\ (forall p, in_port_range p
                  <-> exists k, 0 <= k < maxPort - minPort + 1 /\ p = k + minPort).
Proof.
  intros Hw.
  destruct (randomPort_loop_runs w maxTries tr Hw) as (r & evs & fails & Hrun & Hin & Hsh).
  exists r, evs, fails. split; [exact Hrun|]. split; [exact Hin|].
  split; [destruct Hsh as [(_ & -> & _) | (_ & _ & _ & Hlt & _)]; lia|].
  split.
  - destruct Hsh as [(-> & Hlen & ->) | (q & Hq & -> & Hlen & ->)].
    + auto.
    + exists q. auto.
  - intros p. unfold in_port_range, minPort, maxPort. split.
    + intros Hp. exists (p - 1024). lia.
    + intros (k & Hk & ->). lia.
Qed.

Lemma rand_contract_crowded : rand_contract crowded.
Proof. intros tr n Hn. simpl. apply Z.mod_pos_bound. exact Hn. Qed.

Lemma rand_contract_calm helper status : rand_contract (calm helper status).
Proof. intros tr n Hn. simpl. apply Z.mod_pos_bound. exact Hn. Qed.

(** In the world where every port is taken: ten tries, on ten ports. *)
Lemma randomPort_tries_witness :
  rand_contract crowded
  /\ exists r evs fails,
       randomPort crowded [] = Some (r, evs)
       /\ Forall (fun pe => in_port_range (fst pe)) fails
       /\ (List.length fails <= maxTries)%nat
       /\ match r with
          | Ok s =>
              exists p, in_port_range p /\ s = strconv.Itoa p
                        /\ (List.length fails < maxTries)%nat
                        /\ evs = (flat_map failed_try fails ++ good_try p)%list
          | Err e =>
              e = NoFreePortError /\ List.length fails = maxTries
              /\ evs = flat_map failed_try fails
          end.
Proof.
  split; [exact rand_contract_crowded|].
  destruct (randomPort_tries crowded [] rand_contract_crowded)
    as (r & evs & fails & Hrun & Hin & Hle & Hsh & _).
  exists r, evs, fails. auto.
Defined.

(** ** Positions in a byte string *)

Lemma len_nonneg s : 0 <= net.len s.
Proof. unfold net.len. lia. Qed.

Lemma len_append a b : net.len (a ++ b) = net.len a + net.len b.
Proof. unfold net.len. rewrite length_append. lia. Qed.

Lemma len_String c s : net.len (String c s) = net.len s + 1.
Proof. unfold net.len. simpl String.length. lia. Qed.

Lemma IndexByte_absent s c : net.IndexByte s c < 0 <-> has_byte c s = false.
Proof.
  induction s as [|x s IH]; simpl; [split; [reflexivity | lia]|].
  destruct (Ascii.eqb x c); [split; [lia | discriminate]|].
  destruct (net.IndexByte s c <? 0) eqn:E.
  - apply Z.ltb_lt in E. split; [intros _; now apply IH | lia].
  - apply Z.ltb_ge in E. split; [lia | intros H; apply IH in H; lia].
Qed.

Lemma IndexByte_ltb s c : (0 <=? net.IndexByte s c) = has_byte c s.
Proof.
  pose proof (IndexByte_absent s c) as H.
  destruct (has_byte c s); destruct (Z.leb_spec 0 (net.IndexByte s c)); try reflexivity.
  - destruct H as [H _]. specialize (H ltac:(lia)). discriminate.
  - destruct H as [_ H]. specialize (H eq_refl). lia.
Qed.

Lemma IndexByte_first a b c :
  has_byte c a = false -> net.IndexByte (a ++ String c b) c = net.len a.
Proof.
  induction a as [|x a IH]; simpl.
  - intros _. now rewrite Ascii.eqb_refl.
  - destruct (Ascii.eqb x c); [discriminate|]. intros H.
    rewrite (IH H), len_String. pose proof (len_nonneg a).
    destruct (Z.ltb_spec (net.len a) 0); lia.
Qed.

Lemma last_absent s c : net.last s c < 0 <-> has_byte c s = false.
Proof.
  induction s as [|x s IH]; simpl; [split; [reflexivity | lia]|].
  destruct (Z.leb_spec 0 (net.last s c)) as [E|E].
  - destruct (has_byte c s) eqn:Hs.
    + destruct (Ascii.eqb x c); (split; [lia | discriminate]).
    + destruct IH as [_ IH]. specialize (IH eq_refl). lia.
  - destruct IH as [IH _]. rewrite (IH E).
    destruct (Ascii.eqb x c); split; (reflexivity || lia || discriminate).
Qed.

Lemma last_final a b c :
  has_byte c b = false -> net.last (a ++ String c b) c = net.len a.
Proof.
  intros Hb. induction a as [|x a IH]; simpl.
  - apply last_absent in Hb. rewrite Ascii.eqb_refl.
    destruct (Z.leb_spec 0 (net.last b c)); [lia | reflexivity].
  - rewrite IH, len_String. pose proof (len_nonneg a).
    destruct (Z.leb_spec 0 (net.len a)); lia.
Qed.

(** A string with the byte [c] splits at its last [c]. *)
Lemma last_split s c :
  0 <= net.last s c ->
  exists a b, s = a ++ String c b /\ has_byte c b = false /\ net.len a = net.last s c.
Proof.
  induction s as [|x s IH]; simpl; [lia|].
  destruct (Z.leb_spec 0 (net.last s c)) as [E|E].
  - intros _. destruct (IH E) as (a & b & -> & Hb & Hl).
    exists (String x a), b. rewrite len_String. repeat split; [assumption | lia].
  - destruct (Ascii.eqb x c) eqn:Ex; [|lia]. intros _.
    apply Ascii.eqb_eq in Ex. subst x.
    exists "", s. repeat split. now apply last_absent.
Qed.

(** A string with the byte [c] splits at its first [c]. *)
Lemma IndexByte_split s c :
  0 <= net.IndexByte s c ->
  exists a b, s = a ++ String c b /\ has_byte c a = false /\ net.len a = net.IndexByte s c.
Proof.
  induction s as [|x s IH]; simpl; [lia|].
  destruct (Ascii.eqb x c) eqn:Ex.
  - intros _. apply Ascii.eqb_eq in Ex. subst x. exists "", s. auto.
  - destruct (Z.ltb_spec (net.IndexByte s c) 0) as [E|E]; [lia|]. intros _.
    destruct (IH E) as (a & b & -> & Ha & Hl).
    exists (String x a), b. rewrite len_String. simpl. rewrite Ex.
    repeat split; [assumption | lia].
Qed.

Lemma drop_append a b : strings.drop (String.length a) (a ++ b) = b.
Proof. induction a as [|x a IH]; [destruct b; reflexivity | exact IH]. Qed.

Lemma after_append a b : net.after (net.len a) (a ++ b) = b.
Proof. unfold net.after, net.len. rewrite Nat2Z.id. apply drop_append. Qed.

Lemma substring_whole s : substring 0 (String.length s) s = s.
Proof. induction s as [|x s IH]; simpl; [reflexivity | now rewrite IH]. Qed.

Lemma substring_front a b : substring 0 (String.length a) (a ++ b) = a.
Proof.
  induction a as [|x a IH]; simpl; [destruct b; reflexivity | now rewrite IH].
Qed.

Lemma substring_past a b m :
  substring (String.length a) m (a ++ b) = substring 0 m b.
Proof. induction a as [|x a IH]; simpl; [reflexivity | exact IH]. Qed.

Lemma slice_front a b : net.slice (a ++ b) 0 (net.len a) = a.
Proof.
  unfold net.slice, net.len. rewrite Z.sub_0_r, Nat2Z.id. apply substring_front.
Qed.

Lemma slice_back a b : net.slice (a ++ b) (net.len a) (net.len (a ++ b)) = b.
Proof.
  unfold net.slice. rewrite len_append.
  replace (net.len a + net.len b - net.len a) with (net.len b) by lia.
  unfold net.len. rewrite !Nat2Z.id, substring_past. apply substring_whole.
Qed.

(** Two splits of one string at the same position are the same split. *)
Lemma append_same_length a a' b b' :
  a ++ b = a' ++ b' -> net.len a = net.len a' -> a = a' /\ b = b'.
Proof.
  revert a'. induction a as [|x a IH]; intros [|x' a'] H Hl;
    try (unfold net.len in Hl; simpl String.length in Hl; lia).
  - auto.
  - simpl in H. injection H as -> H. rewrite !len_String in Hl.
    destruct (IH a' H ltac:(lia)) as [-> ->]. auto.
Qed.

(** ** [net.SplitHostPort], [net.JoinHostPort] and [strconv.Itoa] *)

Ltac zb :=
  repeat match goal with
         | |- context [?a <? ?b] => destruct (Z.ltb_spec a b); try lia
         | |- context [?a <=? ?b] => destruct (Z.leb_spec a b); try lia
         | |- context [?a =? ?b] => destruct (Z.eqb_spec a b); try lia
         end.

Lemma uint_plain c :
  c = ":"%char \/ c = "["%char \/ c = "]"%char ->
  forall d, has_byte c (NilEmpty.string_of_uint d) = false.
Proof.
  intros [-> | [-> | ->]] d; induction d; simpl; auto.
Qed.

Lemma Itoa_plain c z :
  c = ":"%char \/ c = "["%char \/ c = "]"%char -> has_byte c (strconv.Itoa z) = false.
Proof.
  intros Hc. unfold strconv.Itoa, NilZero.string_of_int, NilZero.string_of_uint.
  pose proof (uint_plain c Hc) as H.
  destruct (Z.to_int z) as [d | d].
  - destruct d; try apply H. destruct Hc as [-> | [-> | ->]]; reflexivity.
  - assert (Hm : Ascii.eqb "-" c = false) by (destruct Hc as [-> | [-> | ->]]; reflexivity).
    cbn [has_byte]. rewrite Hm.
    destruct d; try apply H. destruct Hc as [-> | [-> | ->]]; reflexivity.
Qed.

Lemma Itoa_not_empty z : strconv.Itoa z <> "".
Proof.
  unfold strconv.Itoa, NilZero.string_of_int, NilZero.string_of_uint.
  destruct (Z.to_int z) as [d | d]; [destruct d; discriminate | discriminate].
Qed.

Lemma SplitHostPort_error s e :
  net.SplitHostPort s = Err e -> exists why, e = AddrError why s.
Proof.
  unfold net.SplitHostPort.
  repeat match goal with
         | |- context [if ?b then _ else _] => destruct b
         end; intros H; inversion H; eauto.
Qed.

(** Splitting undoes joining, for a host without brackets and a port
    without brackets or colon. *)
Lemma SplitHostPort_Join h p :
  no_brackets h -> no_brackets p -> no_colon p ->
  net.SplitHostPort (net.JoinHostPort h p) = Ok (h, p).
Proof.
  intros [Hh1 Hh2] [Hp1 Hp2] Hpc. unfold no_colon in Hpc.
  unfold net.JoinHostPort. rewrite IndexByte_ltb.
  pose proof (len_nonneg h) as Lh. pose proof (len_nonneg p) as Lp.
  destruct (has_byte ":" h) eqn:Hc.
  - set (s := "[" ++ h ++ "]:" ++ p).
    assert (E1 : s = (String "[" (h ++ "]")) ++ String ":" p)
      by (subst s; simpl; now rewrite append_assoc).
    assert (E2 : s = (String "[" h) ++ String "]" (String ":" p)) by reflexivity.
    assert (E3 : s = (String "[" (h ++ "]:")) ++ p)
      by (subst s; simpl; now rewrite append_assoc).
    assert (Hlast : net.last s ":" = net.len h + 2).
    { rewrite E1, (last_final _ _ _ Hpc), len_String, len_append.
      change (net.len "]") with 1. lia. }
    assert (Hend : net.IndexByte s "]" = net.len h + 1).
    { rewrite E2, IndexByte_first, len_String; [reflexivity|].
      simpl. exact Hh2. }
    assert (Hlen : net.len s = net.len h + 3 + net.len p).
    { rewrite E3, len_append, len_String, len_append.
      change (net.len "]:") with 2. lia. }
    assert (Hhost : net.slice s 1 (net.len h + 1) = h).
    { unfold net.slice. replace (net.len h + 1 - 1) with (net.len h) by lia.
      unfold net.len. rewrite Nat2Z.id. subst s. simpl. apply substring_front. }
    assert (Hport : net.slice s (net.len h + 2 + 1) (net.len s) = p).
    { replace (net.len h + 2 + 1) with (net.len (String "[" (h ++ "]:"))).
      - rewrite E3. apply slice_back.
      - rewrite len_String, len_append. change (net.len "]:") with 2. lia. }
    assert (Hj : has_byte "[" (net.after 1 s) = false).
    { change (net.after 1 s) with (h ++ String "]" (String ":" p)).
      rewrite has_byte_app, Hh1. simpl. exact Hp1. }
    assert (Hk : has_byte "]" (net.after (net.len h + 1 + 1) s) = false).
    { replace (net.len h + 1 + 1) with (net.len (String "[" (h ++ "]"))).
      - rewrite E1, after_append. simpl. exact Hp2.
      - rewrite len_String, len_append. change (net.len "]") with 1. lia. }
    unfold net.SplitHostPort. rewrite Hlast, Hend, Hhost, Hport, Hlen, !IndexByte_ltb.
    change (net.first_is s "[") with true. cbn [andb negb].
    rewrite Hj, Hk. zb. reflexivity.
  - set (s := h ++ ":" ++ p).
    assert (Hlast : net.last s ":" = net.len h) by (apply last_final; exact Hpc).
    assert (Hb : net.first_is s "[" = false).
    { subst s. destruct h as [|x h']; [reflexivity|]. simpl in *.
      destruct (Ascii.eqb x "["); [discriminate | reflexivity]. }
    assert (Hhost : net.slice s 0 (net.len h) = h) by apply slice_front.
    assert (Hport : net.slice s (net.len h + 1) (net.len s) = p).
    { replace (net.len h + 1) with (net.len (h ++ ":"))
        by (rewrite len_append; reflexivity).
      replace s with ((h ++ ":") ++ p) by (subst s; now rewrite append_assoc).
      apply slice_back. }
    assert (Hj : has_byte "[" s = false)
      by (subst s; rewrite has_byte_app, Hh1; simpl; exact Hp1).
    assert (Hk : has_byte "]" s = false)
      by (subst s; rewrite has_byte_app, Hh2; simpl; exact Hp2).
    unfold net.SplitHostPort. rewrite Hlast, Hb, !IndexByte_ltb. cbn [andb negb].
    rewrite Hhost, Hport, Hc. change (net.after 0 s) with s. rewrite Hj, Hk.
    zb. reflexivity.
Qed.

(** What a successful split returns: a host without brackets and a port
    without brackets or colon. *)
Lemma SplitHostPort_parts s h p :
  net.SplitHostPort s = Ok (h, p) ->
  no_brackets h /\ no_brackets p /\ no_colon p.
Proof.
  unfold net.SplitHostPort, no_brackets, no_colon.
  destruct (Z.ltb_spec (net.last s ":") 0) as [|Hi]; [discriminate|].
  destruct (last_split s ":" Hi) as (a & q & Es & Hq & La).
  destruct (net.first_is s "[") eqn:Hb; cbn [andb negb].
  - destruct (Z.ltb_spec (net.IndexByte s "]") 0) as [|He]; [discriminate|].
    destruct (Z.eqb_spec (net.IndexByte s "]" + 1) (net.len s)); [discriminate|].
    destruct (Z.eqb_spec (net.IndexByte s "]" + 1) (net.last s ":")) as [Eei|];
      cbn [negb];
      [|match goal with |- context [if ?c then _ else _] => destruct c end; discriminate].
    rewrite !IndexByte_ltb.
    destruct (has_byte "[" (net.after 1 s)) eqn:Hj; [discriminate|].
    destruct (has_byte "]" (net.after (net.IndexByte s "]" + 1) s)) eqn:Hk;
      [discriminate|].
    destruct (IndexByte_split s "]" He) as (b & t & Es' & Hb' & Lb).
    destruct b as [|x b'].
    { rewrite Es' in Hb. simpl in Hb. discriminate. }
    assert (x = "["%char) as ->.
    { rewrite Es' in Hb. cbn [net.first_is append] in Hb. now apply Ascii.eqb_eq in Hb. }
    assert (Ea : a = String "[" (b' ++ "]") /\ String ":" q = t).
    { assert (E : a ++ String ":" q = (String "[" (b' ++ "]")) ++ t).
      { rewrite <- Es, Es'. simpl. now rewrite append_assoc. }
      destruct (append_same_length _ _ _ _ E) as [-> <-]; [|auto].
      rewrite La, <- Eei, <- Lb, !len_String, len_append. reflexivity. }
    destruct Ea as [-> <-]. simpl in Hb'.
    assert (Eend : net.IndexByte s "]" = net.len b' + 1)
      by (rewrite <- Lb; apply len_String).
    assert (Hhost : net.slice s 1 (net.IndexByte s "]") = b').
    { rewrite Eend. unfold net.slice. replace (net.len b' + 1 - 1) with (net.len b') by lia.
      unfold net.len. rewrite Nat2Z.id, Es'. simpl. apply substring_front. }
    assert (Hport : net.slice s (net.last s ":" + 1) (net.len s) = q).
    { rewrite <- La. replace (net.len (String "[" (b' ++ "]")) + 1)
        with (net.len (String "[" (b' ++ "]") ++ ":")).
      - replace s with ((String "[" (b' ++ "]") ++ ":") ++ q)
          by (rewrite Es; now rewrite append_assoc).
        apply slice_back.
      - rewrite len_append. reflexivity. }
    rewrite Hhost, Hport. intros H. injection H as <- <-.
    assert (Hj' : has_byte "[" (b' ++ String "]" (String ":" q)) = false).
    { pose proof Hj as Hj'. rewrite Es' in Hj'. exact Hj'. }
    assert (Hk' : has_byte "]" (String ":" q) = false).
    { pose proof Hk as Hk'. rewrite Eend in Hk'.
      replace (net.len b' + 1 + 1) with (net.len (String "[" (b' ++ "]"))) in Hk'
        by (rewrite len_String, len_append; change (net.len "]") with 1; lia).
      rewrite Es, after_append in Hk'. exact Hk'. }
    rewrite has_byte_app in Hj'. apply orb_false_iff in Hj' as [Hj1 Hj2].
    simpl in Hj2, Hk'. auto.
  - rewrite !IndexByte_ltb.
    assert (Hhost : net.slice s 0 (net.last s ":") = a)
      by (rewrite <- La, Es; apply slice_front).
    assert (Hport : net.slice s (net.last s ":" + 1) (net.len s) = q).
    { rewrite <- La. replace (net.len a + 1) with (net.len (a ++ ":"))
        by (rewrite len_append; reflexivity).
      replace s with ((a ++ ":") ++ q) by (rewrite Es; now rewrite append_assoc).
      apply slice_back. }
    rewrite Hhost, Hport. change (net.after 0 s) with s.
    destruct (has_byte ":" a); [discriminate|].
    destruct (has_byte "[" s) eqn:Hj; [discriminate|].
    destruct (has_byte "]" s) eqn:Hk; [discriminate|].
    intros H. injection H as <- <-.
    rewrite Es, has_byte_app in Hj, Hk.
    apply orb_false_iff in Hj as [Hj1 Hj2]. apply orb_false_iff in Hk as [Hk1 Hk2].
    simpl in Hj2, Hk2. auto.
Qed.

(** ** [parseBindAddr] *)

Lemma randomPort_runs w tr :
  rand_contract w ->
  exists r evs fails,
    randomPort w tr = Some (r, (tr ++ evs)%list)
    /\ ((r = Err NoFreePortError /\ List.length fails = maxTries
         /\ evs = flat_map failed_try fails)
        \/ (exists p, in_port_range p /\ r = Ok (strconv.Itoa p)
                      /\ evs = (flat_map failed_try fails ++ good_try p)%list)).
Proof.
  intros Hw.
  destruct (randomPort_loop_runs w maxTries tr Hw) as (r & evs & fails & Hrun & _ & Hsh).
  exists r, evs, fails. split; [exact Hrun|].
  destruct Hsh as [H | (p & Hp & Hr & _ & He)]; [left; exact H | right; eauto].
Qed.

Lemma loopback_or_host h :
  no_brackets h ->
  let host := if (h =? "")%string then "127.0.0.1" else h in
  no_brackets host /\ host <> "".
Proof.
  intros Hh. cbv zeta. destruct (String.eqb_spec h "") as [->|Hne].
  - split; [split; reflexivity | discriminate].
  - auto.
Qed.

(** C5, as the code has it.  The empty string is read as a lone colon.  A
    string that [net.SplitHostPort] refuses gives that parse error and no
    request is made.  For a string that splits into a host and a port, the
    host is replaced by 127.0.0.1 when empty, and the port by the result of
    [randomPort] when empty; if [randomPort] fails, its error is returned.
    Otherwise the result succeeds, and splitting it again gives back that
    host and that port, both non-empty. *)
Theorem parseBindAddr_host_port (w : World) (raw : string) (tr : trace) :
  rand_contract w ->
  let given := if (raw =? "")%string then ":" else raw in
  match net.SplitHostPort given with
  | Err e =>
      parseBindAddr w raw tr = Some (Err e, tr)
      /\ exists why, e = AddrError why given
  | Ok (h, p) =>
      let host := if (h =? "")%string then "127.0.0.1" else h in
      exists r evs,
        parseBindAddr w raw tr = Some (r, (tr ++ evs)%list)
        /\ match r with
           | Ok s =>
               exists port,
                 s = net.JoinHostPort host port
                 /\ net.SplitHostPort s = Ok (host, port)
                 /\ host <> "" /\ port <> ""
                 /\ (if (p =? "")%string
                     then randomPort w tr = Some (Ok port, (tr ++ evs)%list)
                     else port = p /\ evs = [])
           | Err e =>
               p = "" /\ e = NoFreePortError
               /\ randomPort w tr = Some (Err e, (tr ++ evs)%list)
           end
  end.
Proof.
  intros Hw given. unfold parseBindAddr. fold given.
  destruct (net.SplitHostPort given) as [[h p]|e] eqn:Es.
  2:{ split; [reflexivity | exact (SplitHostPort_error _ _ Es)]. }
  destruct (SplitHostPort_parts _ _ _ Es) as (Hh & Hp & Hc).
  destruct (loopback_or_host h Hh) as [Hhost Hne].
  cbv zeta. set (host := if (h =? "")%string then "127.0.0.1" else h) in *.
  unfold bind. destruct (String.eqb_spec p "") as [->|Hpne].
  - destruct (randomPort_runs w tr Hw) as (r & evs & fails & Hrun & Hsh).
    rewrite Hrun.
    destruct Hsh as [(-> & _ & _) | (q & _ & -> & _)].
    + exists (Err NoFreePortError), evs. auto.
    + exists (Ok (net.JoinHostPort host (strconv.Itoa q))), evs.
      split; [reflexivity|]. exists (strconv.Itoa q).
      split; [reflexivity|]. split.
      * apply SplitHostPort_Join; [exact Hhost | split | ]; apply Itoa_plain; auto.
      * split; [exact Hne|]. split; [apply Itoa_not_empty | reflexivity].
  - exists (Ok (net.JoinHostPort host p)), []. rewrite app_nil_r.
    split; [reflexivity|]. exists p.
    split; [reflexivity|]. split; [now apply SplitHostPort_Join|]. auto.
Qed.

(** An IPv6 literal without a port, in the world where every bind
    succeeds. *)
Lemma parseBindAddr_host_port_witness :
  rand_contract (calm "" 200)
  /\ exists r evs,
       parseBindAddr (calm "" 200) "[::1]:" [] = Some (r, evs)
       /\ match r with
          | Ok s =>
              exists port,
                s = net.JoinHostPort "::1" port
                /\ net.SplitHostPort s = Ok ("::1", port)
                /\ "::1" <> "" /\ port <> ""
                /\ randomPort (calm "" 200) [] = Some (Ok port, evs)
          | Err e =>
              "" = "" /\ e = NoFreePortError
              /\ randomPort (calm "" 200) [] = Some (Err e, evs)
          end.
Proof.
  split; [apply rand_contract_calm|].
  exact (parseBindAddr_host_port (calm "" 200) "[::1]:" [] (rand_contract_calm "" 200)).
Defined.

(** C5, as the specification words it, fails: a string that splits into a
    host and an empty port does not succeed when no port can be bound. *)
Lemma parseBindAddr_valid_input_fails :
  net.SplitHostPort "localhost:" = Ok ("localhost", "")
  /\ option_map fst (parseBindAddr crowded "localhost:" [])
     = Some (Err NoFreePortError).
Proof. split; reflexivity. Qed.

(** C9, as the code has it.  The empty string is treated exactly as a lone
    colon.  The result is never a parse error: either [randomPort] returns a
    port, which was bound and released, and the result is 127.0.0.1 joined
    with it, or [randomPort] used up its tries and its error is returned. *)
Theorem parseBindAddr_empty (w : World) (tr : trace) :
  rand_contract w ->
  parseBindAddr w "" tr = parseBindAddr w ":" tr
  /\ exists r evs fails,
       parseBindAddr w "" tr = Some (r, (tr ++ evs)%list)
       /\ (forall why addr, r <> Err (AddrError why addr))
       /\ match r with
          | Ok s =>
              exists p, in_port_range p
                        /\ s = "127.0.0.1:" ++ strconv.Itoa p
                        /\ randomPort w tr = Some (Ok (strconv.Itoa p), (tr ++ evs)%list)
                        /\ evs = (flat_map failed_try fails ++ good_try p)%list
          | Err e =>
              e = NoFreePortError
              /\ randomPort w tr = Some (Err e, (tr ++ evs)%list)
              /\ List.length fails = maxTries
              /\ evs = flat_map failed_try fails
          end.
Proof.
  intros Hw. split; [reflexivity|].
  destruct (randomPort_runs w tr Hw) as (r & evs & fails & Hrun & Hsh).
  unfold parseBindAddr. cbn [String.eqb]. change (net.SplitHostPort ":")
    with (@Ok (string * string) ("", "")). cbv iota beta. cbn [String.eqb].
  unfold bind. rewrite Hrun.
  destruct Hsh as [(-> & Hlen & ->) | (q & Hq & -> & ->)].
  - exists (Err NoFreePortError), (flat_map failed_try fails), fails.
    split; [reflexivity|]. split; [discriminate|]. auto.
  - exists (Ok (net.JoinHostPort "127.0.0.1" (strconv.Itoa q))),
      (flat_map failed_try fails ++ good_try q)%list, fails.
    split; [reflexivity|]. split; [discriminate|].
    exists q. auto.
Qed.

(** The empty string where the first port tried is free. *)
Lemma parseBindAddr_empty_witness :
  rand_contract (calm "" 200)
  /\ parseBindAddr (calm "" 200) "" [] = parseBindAddr (calm "" 200) ":" []
  /\ parseBindAddr (calm "" 200) "" [] = Some (Ok "127.0.0.1:8080", good_try 8080).
Proof.
  split; [apply rand_contract_calm|].
  split; [exact (proj1 (parseBindAddr_empty (calm "" 200) [] (rand_contract_calm "" 200)))|].
  reflexivity.
Defined.

(** C9, as the specification words it, fails: with every port taken the
    empty string does not succeed; it returns the error of [randomPort]. *)
Lemma parseBindAddr_empty_fails :
  option_map fst (parseBindAddr crowded "" []) = Some (Err NoFreePortError).
Proof. reflexivity. Qed.

(** ** Reasoning on traces *)

Lemma adds_ret {A} (a : A) (Q : A -> list event -> Prop) : Q a [] -> adds (ret a) Q.
Proof.
  intros HQ tr a' tr' H. inversion H; subst. exists []. now rewrite app_nil_r.
Qed.

Lemma adds_bind {A B} (m : M A) (k : A -> M B) Q1 (Q : B -> list event -> Prop) :
  adds m Q1 ->
  (forall a e1, Q1 a e1 -> adds (k a) (fun b e2 => Q b (e1 ++ e2)%list)) ->
  adds (bind m k) Q.
Proof.
  intros Hm Hk tr b tr' H. unfold bind in H.
  destruct (m tr) as [[a tr1]|] eqn:Em; [|discriminate].
  destruct (Hm _ _ _ Em) as (e1 & -> & H1).
  destruct (Hk a e1 H1 _ _ _ H) as (e2 & -> & H2).
  exists (e1 ++ e2)%list. now rewrite app_assoc.
Qed.

Lemma adds_request {A} (answer : trace -> A) (ev : A -> event) (Q : A -> list event -> Prop) :
  (forall a, Q a [ev a]) -> adds (request answer ev) Q.
Proof.
  intros HQ tr a tr' H. unfold request in H. inversion H; subst. eauto.
Qed.

Lemma adds_weaken {A} (m : M A) (Q Q' : A -> list event -> Prop) :
  adds m Q -> (forall a evs, Q a evs -> Q' a evs) -> adds m Q'.
Proof.
  intros Hm HQ tr a tr' H. destruct (Hm _ _ _ H) as (evs & -> & H1). eauto.
Qed.

Lemma only_ret {A} P (a : A) : only P (ret a).
Proof. apply adds_ret. constructor. Qed.

Lemma only_bind {A B} P (m : M A) (k : A -> M B) :
  only P m -> (forall a, only P (k a)) -> only P (bind m k).
Proof.
  intros Hm Hk. eapply adds_bind; [exact Hm|].
  intros a e1 H1. eapply adds_weaken; [apply Hk|].
  intros b e2 H2. apply Forall_app. auto.
Qed.

Lemma only_request {A} (P : event -> Prop) (answer : trace -> A) (ev : A -> event) :
  (forall a, P (ev a)) -> only P (request answer ev).
Proof. intros H. apply adds_request. intros a. constructor; [apply H | constructor]. Qed.

(** Takes a goal [only P m] apart along the structure of [m]; what is left
    are the facts [P e] for the events of [m] and the calls it does not
    know. *)
Ltac only_step :=
  match goal with
  | |- only _ (ret _) => apply only_ret
  | |- only _ (bind _ _) => apply only_bind; [|intros ?]
  | |- only _ (request _ _) => apply only_request; intros ?
  | |- only _ (emit _) => apply only_request; intros ?
  | |- only _ (let '(_, _) := (if ?b then _ else _) in _) => destruct b
  | |- only _ (match ?x with _ => _ end) => destruct x
  end.

Lemma stages_app a b : stages (a ++ b) = (stages a ++ stages b)%list.
Proof. apply filter_app. Qed.

Lemma stages_none evs : Forall (fun e => staged e = false) evs -> stages evs = [].
Proof.
  induction 1 as [|e evs He _ IH]; [reflexivity|].
  unfold stages in *. simpl. now rewrite He.
Qed.

Lemma only_weaken {A} (P P' : event -> Prop) (m : M A) :
  (forall e, P e -> P' e) -> only P m -> only P' m.
Proof.
  intros HP Hm. eapply adds_weaken; [exact Hm|].
  intros a evs H. eapply Forall_impl; [exact HP | exact H].
Qed.

(** ** The sync transport *)

Ltac only_tac :=
  repeat first
    [ only_step
    | progress unfold Info, Error, Intn, Listen, Close, CombinedOutput, Run, Start,
        LookPath, Stat, MkdirAll, CtxErr, Get, OpenURL, Select,
        commandExists, pathExists, openBrowser_start, openBrowser, ensureDir,
        parseHost, parseGCPSSHCmd, parseBindAddr, randomPort, noted ].

Lemma only_syncUserSettings w flags host back :
  only (settings_transport flags host back) (syncUserSettings w flags host back).
Proof.
  unfold syncUserSettings, rsync. only_tac; try exact I;
    (split; [reflexivity|]; split; [reflexivity|]; eexists; reflexivity).
Qed.

Lemma only_syncExtensions w flags host back :
  only (extensions_transport flags host back) (syncExtensions w flags host back).
Proof.
  unfold syncExtensions, rsync. only_tac; try exact I;
    (split; [reflexivity|]; split; [reflexivity|]; eexists; reflexivity).
Qed.

Lemma transport_shape_settings flags host back e :
  settings_transport flags host back e -> transport_shape e.
Proof. destruct e; try exact (fun _ => I). intros H _. eauto. Qed.

Lemma transport_shape_extensions flags host back e :
  extensions_transport flags host back e -> transport_shape e.
Proof. destruct e; try exact (fun _ => I). intros H _. eauto. Qed.

Ltac plain_event := first [exact I | intros; discriminate].

Lemma only_shape_randomPort_loop w n : only transport_shape (randomPort_loop w n).
Proof.
  induction n as [|n IH]; cbn [randomPort_loop]; only_tac; try plain_event. exact IH.
Qed.

Lemma only_shape_loop w fuel url : only transport_shape (sshCode_loop w fuel url).
Proof.
  induction fuel as [|fuel IH]; cbn [sshCode_loop].
  - intros t a t' H. discriminate H.
  - only_tac; try plain_event. exact IH.
Qed.

Lemma only_shape_sshCode w fuel host dir o :
  only transport_shape (sshCode w fuel host dir o).
Proof.
  unfold sshCode, sshCode_probe.
  only_tac;
    try plain_event;
    try apply only_shape_randomPort_loop;
    try apply only_shape_loop;
    try (eapply only_weaken; [apply transport_shape_settings | apply only_syncUserSettings]);
    try (eapply only_weaken; [apply transport_shape_extensions | apply only_syncExtensions]).
Qed.

(** C8.  Every command that a sync function runs is the transport, with the
    arguments in the fixed order: one exclusion flag per exclusion, then
    [-azvr], [-e] with the connector and its flags, [-u], [--times],
    [--delete], [--copy-unsafe-links], the source and the destination.  One
    of the two is [host:path] and the other the local directory followed by
    a separator; which is which follows the direction.  The settings use the
    three exclusions and the extensions none.  Every run of the transport in
    a whole session has one of these two forms. *)
Theorem sync_transport_invocations :
  (forall w flags host back tr err tr',
      syncUserSettings w flags host back tr = Some (err, tr') ->
      exists evs, tr' = (tr ++ evs)%list
                  /\ Forall (settings_transport flags host back) evs)
  /\ (forall w flags host back tr err tr',
         syncExtensions w flags host back tr = Some (err, tr') ->
         exists evs, tr' = (tr ++ evs)%list
                     /\ Forall (extensions_transport flags host back) evs)
  /\ (forall w fuel host dir o res tr,
         sshCode w fuel host dir o [] = Some (res, tr) ->
         Forall transport_shape tr).
Proof.
  split; [|split].
  - intros w flags host back tr err tr' H.
    exact (only_syncUserSettings w flags host back tr err tr' H).
  - intros w flags host back tr err tr' H.
    exact (only_syncExtensions w flags host back tr err tr' H).
  - intros w fuel host dir o res tr H.
    destruct (only_shape_sshCode w fuel host dir o [] res tr H) as (evs & -> & Hall).
    exact Hall.
Qed.

(** A whole session in the calm world: four runs of the transport. *)
Lemma sync_transport_invocations_witness :
  exists res tr,
    sshCode (calm gcloud_line 200) 1 "gcp:vm" "proj" everything [] = Some (res, tr)
    /\ List.length (filter (fun e => match e with
                                     | EvRun "rsync" _ _ _ => true
                                     | _ => false
                                     end) tr) = 4%nat
    /\ Forall transport_shape tr.
Proof.
  destruct (sshCode (calm gcloud_line 200) 1 "gcp:vm" "proj" everything [])
    as [[res tr]|] eqn:E; [|vm_compute in E; discriminate E].
  exists res, tr. split; [reflexivity|]. split.
  - vm_compute in E. injection E as <- <-. reflexivity.
  - exact (proj2 (proj2 sync_transport_invocations) _ _ _ _ _ _ _ E).
Defined.

(** ** The readiness probe *)

(** Every finished run of the loop: failed turns, then either an answer,
    whose body is closed, or the deadline. *)
Lemma sshCode_loop_runs w fuel url tr r tr' :
  sshCode_loop w fuel url tr = Some (r, tr') ->
  exists fails,
    (List.length fails < fuel)%nat
    /\ ((exists resp,
           r = None
           /\ tr' = (tr ++ flat_map (failed_attempt url) fails
                        ++ [EvCtxErr None; EvGet url (3 * Second) (Ok resp); EvBodyClose])%list)
        \/ (exists cause,
              r = Some (TimeoutError cause)
              /\ tr' = (tr ++ flat_map (failed_attempt url) fails
                           ++ [EvCtxErr (Some cause)])%list)).
Proof.
  revert tr. induction fuel as [|fuel IH]; intros tr H; [discriminate H|].
  cbn [sshCode_loop] in H. unfold bind, CtxErr, Get, emit, request, ret in H.
  destruct (ctx_Err w tr) as [cause|] eqn:Ec.
  - injection H as <- <-. exists []. split; [simpl; lia|]. right. exists cause. auto.
  - match type of H with
    | context [http_Get w ?t ?u ?d] => destruct (http_Get w t u d) as [resp|e] eqn:Eg
    end.
    + injection H as <- <-. exists []. split; [simpl; lia|]. left. exists resp.
      split; [reflexivity|]. simpl. now rewrite <- !app_assoc.
    + destruct (IH _ H) as (fails & Hlen & Hsh). exists (e :: fails).
      split; [simpl; lia|].
      destruct Hsh as [(resp & -> & ->) | (cause & -> & ->)]; [left; exists resp | right; exists cause];
        (split; [reflexivity|]); cbn [flat_map failed_attempt];
        rewrite <- !app_assoc; reflexivity.
Qed.

(** The loop ends once the deadline is honoured. *)
Lemma sshCode_loop_ends w url n k tr :
  deadline_by w n -> (n <= List.length tr + 2 * k)%nat ->
  exists r tr', sshCode_loop w (S k) url tr = Some (r, tr').
Proof.
  intros Hd. revert tr. induction k as [|k IH]; intros tr Hn.
  - cbn [sshCode_loop]. unfold bind, CtxErr, request, ret.
    destruct (ctx_Err w tr) eqn:Ec; [eauto|].
    exfalso. apply (Hd tr); [lia | exact Ec].
  - cbn [sshCode_loop]. unfold bind, CtxErr, Get, emit, request, ret.
    destruct (ctx_Err w tr) eqn:Ec; [eauto|].
    match goal with
    | |- context [http_Get w ?t ?u ?d] => destruct (http_Get w t u d) as [resp|e] eqn:Eg
    end; [eauto|].
    apply IH. rewrite !length_app. simpl. lia.
Qed.

(** C4.  The probe sets a deadline of 15 seconds and then asks, turn by
    turn, first whether the deadline has passed and then for the page, with
    a timeout of 3 seconds.  Every finished run is a sequence of turns whose
    request failed, each followed at once by the next turn, and ends in one
    of two ways: a request was answered, whatever the status, the body of
    the answer is closed and the probe reports ready; or the deadline was
    found passed and the probe returns the timeout error.  So the timeout
    error is returned exactly when the deadline passes before any request
    was answered.  A first request that is answered ends the probe, for
    every status.  The probe returns whenever the deadline is honoured. *)
Theorem probe_ready_or_timeout (w : World) (url : string) (tr : trace) :
  (forall fuel r tr',
      sshCode_probe w fuel url tr = Some (r, tr') ->
      exists fails,
        (List.length fails < fuel)%nat
        /\ ((exists resp,
               r = None
               /\ tr' = (tr ++ [EvWithTimeout (15 * Second)]
                            ++ flat_map (failed_attempt url) fails
                            ++ [EvCtxErr None; EvGet url (3 * Second) (Ok resp);
                                EvBodyClose])%list)
            \/ (exists cause,
                  r = Some (TimeoutError cause)
                  /\ tr' = (tr ++ [EvWithTimeout (15 * Second)]
                               ++ flat_map (failed_attempt url) fails
                               ++ [EvCtxErr (Some cause)])%list)))
  /\ (forall fuel status,
         let tr1 := (tr ++ [EvWithTimeout (15 * Second)])%list in
         ctx_Err w tr1 = None ->
         http_Get w (tr1 ++ [EvCtxErr None])%list url (3 * Second)
         = Ok {| StatusCode := status |} ->
         sshCode_probe w (S fuel) url tr
         = Some (None, (tr1 ++ [EvCtxErr None;
                                EvGet url (3 * Second) (Ok {| StatusCode := status |});
                                EvBodyClose])%list))
  /\ (forall n, deadline_by w n ->
                exists r tr', sshCode_probe w (S n) url tr = Some (r, tr')).
Proof.
  split; [|split].
  - intros fuel r tr' H. unfold sshCode_probe, bind, emit, request in H.
    destruct (sshCode_loop_runs _ _ _ _ _ _ H) as (fails & Hlen & Hsh).
    exists fails. split; [exact Hlen|].
    destruct Hsh as [(resp & -> & ->) | (cause & -> & ->)]; [left; exists resp | right; exists cause];
      (split; [reflexivity|]); rewrite <- !app_assoc; reflexivity.
  - intros fuel status tr1 Hc Hg.
    unfold sshCode_probe, bind, emit, request. cbn [sshCode_loop].
    unfold bind, CtxErr, Get, emit, request, ret. fold tr1. rewrite Hc, Hg.
    rewrite <- !app_assoc. reflexivity.
  - intros n Hd. unfold sshCode_probe, bind, emit, request.
    apply (sshCode_loop_ends w url n n); [exact Hd | lia].
Qed.

Lemma silent_deadline : deadline_by silent 6.
Proof.
  intros tr Hn. cbn [silent ctx_Err].
  destruct (Nat.leb_spec 6 (List.length tr)); [discriminate | lia].
Qed.

(** The server never answers: two failed turns, then the deadline. *)
Lemma probe_ready_or_timeout_witness :
  deadline_by silent 6
  /\ exists r tr',
       sshCode_probe silent 7 "http://127.0.0.1:8080" [] = Some (r, tr')
       /\ r = Some (TimeoutError DeadlineExceeded).
Proof.
  split; [exact silent_deadline|].
  destruct (proj2 (proj2 (probe_ready_or_timeout silent "http://127.0.0.1:8080" []))
              6%nat silent_deadline) as (r & tr' & H).
  exists r, tr'. split; [exact H|].
  vm_compute in H. injection H as <- _. reflexivity.
Defined.

(** ** The stages of a session *)

Lemma adds_unstaged {A} (m : M A) :
  only unstaged m -> adds m (fun _ evs => stages evs = []).
Proof.
  intros H. eapply adds_weaken; [exact H|]. intros a evs Hall. now apply stages_none.
Qed.

Lemma unstaged_randomPort_loop w n : only unstaged (randomPort_loop w n).
Proof.
  induction n as [|n IH]; cbn [randomPort_loop]; only_tac; try reflexivity. exact IH.
Qed.

Lemma unstaged_parseHost w host : only unstaged (parseHost w host).
Proof. only_tac; reflexivity. Qed.

Lemma unstaged_parseBindAddr w raw : only unstaged (parseBindAddr w raw).
Proof. only_tac; try reflexivity; apply unstaged_randomPort_loop. Qed.

Lemma adds_event {A} (answer : trace -> A) (ev : A -> event) :
  adds (request answer ev) (fun a evs => evs = [ev a]).
Proof. apply adds_request. reflexivity. Qed.

Lemma stages_syncUserSettings w flags host back :
  adds (syncUserSettings w flags host back)
       (fun err evs => stages evs = [EvSync Settings back err]).
Proof.
  unfold syncUserSettings, noted.
  eapply adds_bind.
  - apply adds_unstaged. unfold rsync. only_tac; reflexivity.
  - intros err e1 H1. cbv beta in H1.
    eapply adds_bind; [apply adds_event|].
    intros [] e2 ->. apply adds_ret. rewrite app_nil_r, stages_app, H1. reflexivity.
Qed.

Lemma stages_syncExtensions w flags host back :
  adds (syncExtensions w flags host back)
       (fun err evs => stages evs = [EvSync Extensions back err]).
Proof.
  unfold syncExtensions, noted.
  eapply adds_bind.
  - apply adds_unstaged. unfold rsync. only_tac; reflexivity.
  - intros err e1 H1. cbv beta in H1.
    eapply adds_bind; [apply adds_event|].
    intros [] e2 ->. apply adds_ret. rewrite app_nil_r, stages_app, H1. reflexivity.
Qed.

Lemma openBrowser_runs w url tr :
  exists evs, openBrowser w url tr = Some (tt, (tr ++ evs)%list)
              /\ browser_events url evs.
Proof.
  unfold openBrowser, commandExists, pathExists, openBrowser_start, LookPath, Stat,
    Start, OpenURL, Error, emit, bind, request, ret, is_nil.
  repeat match goal with
         | |- context [match exec_LookPath w ?t ?f with _ => _ end] =>
             destruct (exec_LookPath w t f)
         | |- context [match os_Stat w ?t ?f with _ => _ end] =>
             destruct (os_Stat w t f)
         | |- context [match exec_Start w ?t ?f ?a with _ => _ end] =>
             destruct (exec_Start w t f a)
         | |- context [match browser_OpenURL w ?t ?u with _ => _ end] =>
             destruct (browser_OpenURL w t u)
         end;
    (eexists; split; [rewrite <- ?app_assoc; reflexivity | simpl; repeat constructor]).
Qed.

Lemma browser_events_stages url evs :
  browser_events url evs -> stages evs = [] \/ stages evs = [browser_failed].
Proof. induction 1; auto. Qed.

Lemma stages_openBrowser w url :
  adds (openBrowser w url)
       (fun _ evs => stages evs = [] \/ stages evs = [browser_failed]).
Proof.
  intros tr a tr' H. destruct (openBrowser_runs w url tr) as (evs & Hrun & Hev).
  rewrite Hrun in H. injection H as <- <-.
  exists evs. split; [reflexivity | exact (browser_events_stages _ _ Hev)].
Qed.

Lemma stages_failed_attempts url fails :
  stages (flat_map (failed_attempt url) fails) = [].
Proof. induction fails as [|e fails IH]; [reflexivity | exact IH]. Qed.

Lemma stages_probe w fuel url :
  adds (sshCode_probe w fuel url)
       (fun r evs => (r = None /\ stages evs = [EvBodyClose])
                     \/ (r <> None /\ stages evs = [])).
Proof.
  intros tr r tr' H. unfold sshCode_probe, bind, emit, request in H.
  destruct (sshCode_loop_runs _ _ _ _ _ _ H) as (fails & _ & Hsh).
  destruct Hsh as [(resp & -> & ->) | (cause & -> & ->)];
    rewrite <- app_assoc; eexists; (split; [reflexivity|]);
    rewrite !stages_app, stages_failed_attempts; [left | right];
    (split; [try reflexivity; discriminate | reflexivity]).
Qed.

Ltac quiet :=
  apply adds_unstaged; only_tac; try reflexivity; try apply unstaged_randomPort_loop.

(** Rewrites the stages of the events added so far with what is known of
    each part. *)
Ltac stage_norm :=
  cbv beta in *; rewrite ?app_nil_r, ?stages_app;
  repeat match goal with
         | H : stages ?e = _ |- context [stages ?e] => rewrite H
         | H : ?e = _ |- context [stages ?e] => rewrite H
         end;
  cbn [app stages filter staged]; rewrite ?app_nil_r.

Lemma sync_in_stage w o flags host :
  adds (if negb (skipSync o) then
          Info "syncing settings" ;;;
          err <- syncUserSettings w flags host false ;;
          match err with
          | Some err => ret (Some (Errorfw "failed to sync settings: %w" [] err))
          | None =>
              Info "synced settings in %s" ;;;
              Info "syncing extensions" ;;;
              err <- syncExtensions w flags host false ;;
              match err with
              | Some err => ret (Some (Errorfw "failed to sync extensions: %w" [] err))
              | None => Info "synced extensions in %s" ;;; ret None
              end
          end
        else ret None)
       (fun r evs => sync_in_part o (stages evs) r).
Proof.
  unfold sync_in_part. destruct (skipSync o); cbn [negb].
  - apply adds_ret. auto.
  - eapply adds_bind; [quiet|]. intros [] e0 H0.
    eapply adds_bind; [apply stages_syncUserSettings|]. intros err e1 H1.
    destruct err as [err|].
    + apply adds_ret. stage_norm. left. eauto.
    + eapply adds_bind; [quiet|]. intros [] e2 H2.
      eapply adds_bind; [quiet|]. intros [] e3 H3.
      eapply adds_bind; [apply stages_syncExtensions|]. intros err e4 H4.
      destruct err as [err|].
      * apply adds_ret. stage_norm. right. left. eauto.
      * eapply adds_bind; [quiet|]. intros [] e5 H5.
        apply adds_ret. stage_norm. right. right. auto.
Qed.

Lemma sync_back_stage w o flags host :
  adds (if negb (syncBack o) || skipSync o then
          Info "shutting down" ;;; ret None
        else
          Info "synchronizing VS Code back to local" ;;;
          err <- syncExtensions w flags host true ;;
          match err with
          | Some err => ret (Some (Errorfw "failed to sync extensions back: %w" [] err))
          | None =>
              err <- syncUserSettings w flags host true ;;
              match err with
              | Some err =>
                  ret (Some (Errorfw "failed to sync user settings settings back: %w" [] err))
              | None => ret None
              end
          end)
       (fun r evs => sync_back_part o (stages evs) r).
Proof.
  unfold sync_back_part. destruct (negb (syncBack o) || skipSync o).
  - eapply adds_bind; [quiet|]. intros [] e0 H0. apply adds_ret. stage_norm. auto.
  - eapply adds_bind; [quiet|]. intros [] e0 H0.
    eapply adds_bind; [apply stages_syncExtensions|]. intros err e1 H1.
    destruct err as [err|].
    + apply adds_ret. stage_norm. left. eauto.
    + eapply adds_bind; [apply stages_syncUserSettings|]. intros err e2 H2.
      destruct err as [err|]; apply adds_ret; stage_norm; [right; left; eauto | right; right; auto].
Qed.

(** Every finished run of [sshCode] goes through the stages of a session. *)
Lemma sshCode_session w fuel host dir o :
  adds (sshCode w fuel host dir o) (fun res evs => session o res (stages evs)).
Proof.
  unfold sshCode.
  eapply adds_bind; [quiet|]. intros [] e0 H0.
  eapply adds_bind; [apply adds_unstaged, unstaged_parseHost|]. intros r e1 H1.
  destruct r as [[h extra]|err];
    [|apply adds_ret; stage_norm; apply stopped_resolving; discriminate].
  eapply adds_bind; [apply adds_unstaged, unstaged_parseBindAddr|]. intros r e2 H2.
  destruct r as [addr|err];
    [|apply adds_ret; stage_norm; apply stopped_resolving; discriminate].
  eapply adds_bind; [quiet|]. intros r e3 H3.
  destruct r as [port|err];
    [|apply adds_ret; stage_norm; apply stopped_resolving; discriminate].
  eapply adds_bind; [apply adds_event|]. intros err e4 H4.
  destruct err as [err|];
    [apply adds_ret; stage_norm; apply stopped_bootstrap; discriminate|].
  eapply adds_bind; [apply sync_in_stage|]. intros r e5 H5.
  destruct r as [err|];
    [apply adds_ret; stage_norm; apply stopped_sync_in; [exact H5 | discriminate]|].
  eapply adds_bind; [quiet|]. intros [] e6 H6.
  eapply adds_bind; [quiet|]. intros [] e7 H7.
  eapply adds_bind; [quiet|]. intros err e8 H8.
  destruct err as [err|];
    [apply adds_ret; stage_norm; apply stopped_tunnel; [exact H5 | discriminate]|].
  eapply adds_bind; [apply stages_probe|]. intros perr e9 H9.
  destruct perr as [err|].
  { destruct H9 as [[H9 _] | [_ H9]]; [discriminate H9|].
    apply adds_ret; stage_norm; apply stopped_tunnel; [exact H5 | discriminate]. }
  destruct H9 as [[_ H9] | [H9 _]]; [|congruence].
  eapply (adds_bind _ _ (fun _ evs => stages evs = []
                                      \/ (noOpen o = false /\ stages evs = [browser_failed]))).
  { destruct (noOpen o); cbn [negb].
    - apply adds_ret. auto.
    - eapply adds_weaken; [apply stages_openBrowser|].
      intros a evs [H | H]; auto. }
  intros [] e10 H10.
  eapply adds_bind; [apply adds_event|]. intros sig e11 H11.
  eapply adds_weaken; [apply sync_back_stage|]. intros res e12 H12.
  stage_norm.
  apply (finished o res _ _ (stages e5) (stages e10) sig (stages e12));
    [exact H5 | | exact H12].
  destruct H10 as [-> | [Hn ->]]; auto.
Qed.

(** ** Reading the stages *)


Lemma In_stages e tr : staged e = true -> In e tr -> In e (stages tr).
Proof. intros Hs Hin. apply filter_In. auto. Qed.

Lemma stages_In e tr : In e (stages tr) -> In e tr.
Proof. intros H. apply filter_In in H. tauto. Qed.

Lemma sshCode_stages w fuel host dir o res tr :
  sshCode w fuel host dir o [] = Some (res, tr) -> session o res (stages tr).
Proof.
  intros H. destruct (sshCode_session w fuel host dir o [] res tr H) as (evs & -> & Hs).
  exact Hs.
Qed.

(** A list splits in one way only at an element that occurs once. *)
Lemma split_unique {A} (P : A -> bool) (l1' l2' l1 l2 : list A) (x x' : A) :
  (l1 ++ x :: l2 = l1' ++ x' :: l2')%list ->
  P x = true -> P x' = true ->
  Forall (fun a => P a = false) l1' -> Forall (fun a => P a = false) l2' ->
  l1 = l1' /\ x = x' /\ l2 = l2'.
Proof.
  revert l1. induction l1' as [|a' l1' IH]; intros l1 E Hx Hx' H1 H2.
  - destruct l1 as [|a l1]; simpl in E.
    + injection E as -> ->. auto.
    + injection E as -> E. exfalso.
      assert (Hin : In x l2') by (rewrite <- E; apply in_elt).
      rewrite Forall_forall in H2. specialize (H2 _ Hin). congruence.
  - inversion H1 as [|? ? Ha' H1']; subst.
    destruct l1 as [|a l1]; simpl in E.
    + injection E as -> E. congruence.
    + injection E as -> E. destruct (IH l1 E Hx Hx' H1' H2) as (-> & -> & ->). auto.
Qed.

Ltac list_facts :=
  repeat split;
  first [ reflexivity
        | solve [repeat constructor]
        | solve [intros; simpl in *; intuition (try discriminate; try congruence)]
        | solve [intros; simpl in *; eauto] ].

Lemma pushed_events e1 r1 :
  pushed e1 r1 ->
  syncs e1 = e1 /\ Forall (fun a => is_select a = false) e1
  /\ (forall what err, ~ In (EvSync what true err) e1)
  /\ ~ In EvBodyClose e1
  /\ (forall args script, ~ In (EvRun "sh" args (Some script) None) e1)
  /\ (r1 = None -> e1 = [EvSync Settings false None; EvSync Extensions false None]).
Proof.
  intros [(e & -> & ->) | [(e & -> & ->) | (-> & ->)]]; list_facts.
Qed.

Lemma pulled_events e2 res :
  pulled e2 res ->
  syncs e2 = e2 /\ Forall (fun a => is_select a = false) e2
  /\ (exists err, In (EvSync Extensions true err) e2)
  /\ (forall e, res = Some e ->
                exists c, e = Errorfw "failed to sync extensions back: %w" [] c
                          \/ e = Errorfw "failed to sync user settings settings back: %w" [] c).
Proof.
  intros [(e & -> & ->) | [(e & -> & ->) | (-> & ->)]];
    (split; [reflexivity|]); (split; [repeat constructor|]);
    (split; [eexists; left; reflexivity|]);
    intros e' H; inversion H; eauto.
Qed.





Ltac find_in := repeat first [left; reflexivity | right].




Lemma sync_in_part_events o e1 r1 :
  sync_in_part o e1 r1 ->
  Forall (fun a => is_select a = false) e1
  /\ (forall what err, ~ In (EvSync what true err) e1)
  /\ ~ In EvBodyClose e1
  /\ (skipSync o = true -> e1 = []).
Proof.
  unfold sync_in_part. destruct (skipSync o).
  - intros [-> ->]. list_facts.
  - intros Hp. destruct (pushed_events _ _ Hp) as (_ & H1 & H2 & H3 & _).
    repeat split; auto. discriminate.
Qed.



(** C10.  [openBrowser] always returns, and returns nothing: its events are
    the lookups and one launch, and a launch that fails is followed only by
    the line in the log.  In every session whose probe reported ready the
    [Running] state is reached, whatever the browser did; such a session
    returns no error when no sync-back is due, and otherwise only an error
    of sync-back.  The last part is a session in a world without a browser:
    the failure is logged, [Running] is reached and the session succeeds. *)
Theorem browser_failure_is_only_logged :
  (forall w url tr,
      exists evs, openBrowser w url tr = Some (tt, (tr ++ evs)%list)
                  /\ browser_events url evs)
  /\ (forall w fuel host dir o res tr,
         sshCode w fuel host dir o [] = Some (res, tr) ->
         In EvBodyClose tr ->
         (exists sig, In (EvSelect sig) tr)
         /\ (negb (syncBack o) || skipSync o = true -> res = None)
         /\ (forall e, res = Some e ->
                       exists c,
                         e = Errorfw "failed to sync extensions back: %w" [] c
                         \/ e = Errorfw "failed to sync user settings settings back: %w" [] c))
  /\ (exists tr,
         sshCode headless 1 "devbox" "proj" browser_only [] = Some (None, tr)
         /\ In (EvOpenURL "http://127.0.0.1:8080"
                  (Some (Foreign "exec: xdg-open: not found"))) tr
         /\ In browser_failed tr
         /\ In (EvSelect TunnelEnded) tr).
Proof.
  split; [exact openBrowser_runs|]. split.
  - intros w fuel host dir o res tr H Hin.
    pose proof (sshCode_stages _ _ _ _ _ _ _ H) as Hs.
    apply In_stages in Hin; [|reflexivity].
    remember (stages tr) as st eqn:Est.
    destruct Hs as [Hr | a s e Hr | a s e1 Hp Hr | a s e1 Hp Hr | a s e1 eb sig e2 Hp Hb Hq].
    + destruct Hin.
    + destruct Hin as [E | []]. discriminate E.
    + destruct (sync_in_part_events _ _ _ Hp) as (_ & _ & Hnb & _).
      destruct Hin as [E | Hin]; [discriminate E | contradiction].
    + destruct (sync_in_part_events _ _ _ Hp) as (_ & _ & Hnb & _).
      destruct Hin as [E | Hin]; [discriminate E | contradiction].
    + split; [|split].
      * exists sig. apply stages_In. rewrite <- Est.
        cbn [app]. apply in_cons, in_or_app. right.
        apply in_cons, in_or_app. right. apply in_eq.
      * intros Hc. unfold sync_back_part in Hq. rewrite Hc in Hq. apply Hq.
      * intros e Hres. unfold sync_back_part in Hq.
        destruct (negb (syncBack o) || skipSync o).
        -- destruct Hq as [_ Hq]. congruence.
        -- destruct (pulled_events _ _ Hq) as (_ & _ & _ & Herr). exact (Herr e Hres).
  - eexists. split; [vm_compute; reflexivity|]. split; [find_in|]. split; find_in.
Qed.

(** The middle part at the session without a browser. *)
Lemma browser_failure_is_only_logged_witness :
  exists res tr,
    sshCode headless 1 "devbox" "proj" browser_only [] = Some (res, tr)
    /\ In browser_failed tr
    /\ (exists sig, In (EvSelect sig) tr)
    /\ res = None.
Proof.
  destruct (sshCode headless 1 "devbox" "proj" browser_only [])
    as [[res tr]|] eqn:E; [|vm_compute in E; discriminate E].
  exists res, tr. split; [reflexivity|].
  assert (Hin : In EvBodyClose tr /\ In browser_failed tr).
  { vm_compute in E. injection E as <- <-. split; find_in. }
  destruct Hin as [Hready Hfailed].
  destruct (proj1 (proj2 browser_failure_is_only_logged) _ _ _ _ _ _ _ E Hready)
    as (Hsel & Hnone & _).
  split; [exact Hfailed|]. split; [exact Hsel | exact (Hnone eq_refl)].
Defined.

(** * More of the program *)

(** ** One sync call *)

(** X1.  A call of a sync function always returns, and notes its outcome
    last.  Before that it does one of three things.  The local directory
    cannot be told: the error is returned as it is.  The directory cannot be
    ensured (the look fails with another error than not-exist, or the
    creation fails): that error is returned as it is.  In both cases the
    transport is not run.  Or the directory is there or was created: the
    transport is run once, as the last request, and its error, if any, is
    returned wrapped with the source and the destination. *)
Theorem sync_call_outcomes (w : World) (what : Asset) (flags host : string)
        (back : bool) (tr : trace) :
  exists r evs,
    sync_of what w flags host back tr = Some (r, (tr ++ evs)%list)
    /\ exists body,
         evs = (body ++ [EvSync what back r])%list
         /\ ((exists e, body = [dir_event what (Err e)] /\ r = Some e)
             \/ (exists d ens e,
                    ensured w d ens (Some e)
                    /\ body = dir_event what (Ok d) :: ens /\ r = Some e)
             \/ (exists d ens rr,
                    ensured w d ens None
                    /\ let remote := host ++ ":" ++ sync_remote what in
                       let src := if back then remote else d ++ "/" in
                       let dest := if back then d ++ "/" else remote in
                       body = (dir_event what (Ok d) :: ens
                               ++ [EvRun "rsync"
                                     (transport_args (sync_excludes what) flags src dest)
                                     None rr])%list
                       /\ r = rsync_error src dest rr)).
Proof.
  destruct what, back; cbn [sync_of dir_event sync_excludes sync_remote];
    unfold syncUserSettings, syncExtensions, noted, ensureDir, rsync, Stat, MkdirAll, Run,
      emit, bind, request, ret; cbv iota beta.
  all: match goal with
       | |- context [configDir ?ww ?t] => destruct (configDir ww t) as [d|e] eqn:Ed
       | |- context [extensionsDir ?ww ?t] => destruct (extensionsDir ww t) as [d|e] eqn:Ed
       end.
  all: try (do 2 eexists; split; [rewrite <- ?app_assoc; reflexivity|];
            eexists; split; [reflexivity|]; left; eauto; fail).
  all: match goal with
       | |- context [os_Stat ?ww ?t ?dd] => destruct (os_Stat ww t dd) as [st|] eqn:Est
       end.
  all: match goal with
       | |- context [os_IsNotExist ?ww ?x] => destruct (os_IsNotExist ww x) eqn:Ene
       end.
  all: try match goal with
       | |- context [os_MkdirAll ?ww ?t ?dd ?m] =>
           destruct (os_MkdirAll ww t dd m) as [mk|] eqn:Emk
       end.
  all: try match goal with
       | |- context [exec_Run ?ww ?t ?n ?a ?i] =>
           destruct (exec_Run ww t n a i) as [rr|] eqn:Er
       end.
  all: do 2 eexists; (split; [rewrite <- ?app_assoc; cbn [app]; reflexivity|]).
  all: match goal with
       | |- exists body, ?l = _ /\ _ => exists (removelast l)
       end; (split; [reflexivity|]); cbn [removelast].
  all: first
         [ right; left; do 3 eexists; split; [|split; reflexivity];
           first [ left; split; [reflexivity | assumption]
                 | right; eexists; split; [reflexivity | assumption] ]
         | right; right;
           match goal with
           | Emk : os_MkdirAll _ _ ?dd _ = ?mk, Est : os_Stat _ _ _ = ?st,
             Er : exec_Run _ _ _ _ _ = ?rr |- _ =>
               exists dd, [EvStat dd st; EvMkdirAll dd 488 mk], rr
           | Est : os_Stat _ _ ?dd = ?st, Er : exec_Run _ _ _ _ _ = ?rr |- _ =>
               exists dd, [EvStat dd st], rr
           end;
           (split; [|cbv zeta; split; reflexivity]);
           first [ left; split; [reflexivity | assumption]
                 | right; eexists; split; [reflexivity | assumption] ] ].
Qed.

(** ** The browser *)

(** X2.  [openBrowser] always returns.  It looks for the six browsers in
    their fixed order and stops at the first one found; that one, and no
    other, is started with [chromeOptions url].  Only when all six lookups
    have failed is the system launcher asked to open the URL.  In both cases
    there is one launch, and when it fails a line in the log is all that
    follows. *)
Theorem openBrowser_preference (w : World) (url : string) (tr : trace) :
  exists misses evs,
    (List.length misses <= 6)%nat
    /\ openBrowser w url tr = Some (tt, (tr ++ evs)%list)
    /\ let tried := map (fun ce => looked (fst ce) (Some (snd ce)))
                        (combine browser_candidates misses) in
       match nth_error browser_candidates (List.length misses) with
       | Some c =>
           exists r, evs = (tried ++ looked c None
                                  :: EvStart (snd c) (chromeOptions url) r
                                  :: launch_log r)%list
       | None =>
           exists r, evs = (tried ++ EvOpenURL url r :: launch_log r)%list
       end.
Proof.
  unfold openBrowser, commandExists, pathExists, openBrowser_start, LookPath, Stat,
    Start, OpenURL, Error, emit, bind, request, ret, is_nil.
  repeat match goal with
         | |- context [match exec_LookPath w ?t ?f with _ => _ end] =>
             destruct (exec_LookPath w t f)
         | |- context [match os_Stat w ?t ?f with _ => _ end] =>
             destruct (os_Stat w t f)
         | |- context [match exec_Start w ?t ?f ?a with _ => _ end] =>
             destruct (exec_Start w t f a)
         | |- context [match browser_OpenURL w ?t ?u with _ => _ end] =>
             destruct (browser_OpenURL w t u)
         end;
    rewrite <- ?app_assoc; cbn [app];
    match goal with
    | |- exists m evs, _ /\ Some (tt, (tr ++ ?l)%list) = _ /\ _ =>
        exists (misses_of l), l
    end;
    cbn [misses_of List.length];
    (split; [lia|]); (split; [reflexivity|]);
    cbv zeta; cbn;
    first [exists None; reflexivity | eexists (Some _); reflexivity].
Qed.

(** ** The way of a session *)

Lemma marks_app a b : marks (a ++ b) = (marks a ++ marks b)%list.
Proof. apply filter_app. Qed.

Lemma marks_none evs : Forall unmarked evs -> marks evs = [].
Proof.
  induction 1 as [|e evs He _ IH]; [reflexivity|].
  unfold marks in *. simpl. now rewrite He.
Qed.

Lemma adds_unmarked {A} (m : M A) :
  only unmarked m -> adds m (fun _ evs => marks evs = []).
Proof.
  intros H. eapply adds_weaken; [exact H|]. intros a evs Hall. now apply marks_none.
Qed.

Lemma unmarked_randomPort_loop w n : only unmarked (randomPort_loop w n).
Proof.
  induction n as [|n IH]; cbn [randomPort_loop]; only_tac; try reflexivity. exact IH.
Qed.

Lemma unmarked_parseBindAddr w raw : only unmarked (parseBindAddr w raw).
Proof. only_tac; try reflexivity; apply unmarked_randomPort_loop. Qed.

Lemma marks_parseHost w host :
  adds (parseHost w host) (fun _ evs => resolve_marks host (marks evs)).
Proof.
  unfold parseHost, resolve_marks.
  destruct (strings.HasPrefix (strings.TrimSpace host) "gcp:").
  - unfold parseGCPSSHCmd. fold (gcp_command host).
    eapply adds_bind; [apply adds_event|]. intros [out herr] e1 ->.
    eapply adds_weaken with (Q := fun _ evs => evs = []).
    + repeat match goal with
             | |- adds (match ?x with _ => _ end) _ => destruct x
             end; apply adds_ret; reflexivity.
    + intros r evs ->. cbn. eauto.
  - apply adds_ret. reflexivity.
Qed.

Lemma marks_syncUserSettings w flags host back :
  adds (syncUserSettings w flags host back)
       (fun err evs => marks evs = [EvSync Settings back err]).
Proof.
  unfold syncUserSettings, noted.
  eapply adds_bind.
  - apply adds_unmarked. unfold rsync. only_tac; reflexivity.
  - intros err e1 H1. cbv beta in H1.
    eapply adds_bind; [apply adds_event|].
    intros [] e2 ->. apply adds_ret. rewrite app_nil_r, marks_app, H1. reflexivity.
Qed.

Lemma marks_syncExtensions w flags host back :
  adds (syncExtensions w flags host back)
       (fun err evs => marks evs = [EvSync Extensions back err]).
Proof.
  unfold syncExtensions, noted.
  eapply adds_bind.
  - apply adds_unmarked. unfold rsync. only_tac; reflexivity.
  - intros err e1 H1. cbv beta in H1.
    eapply adds_bind; [apply adds_event|].
    intros [] e2 ->. apply adds_ret. rewrite app_nil_r, marks_app, H1. reflexivity.
Qed.

Lemma openBrowser_marks_run w url tr :
  exists evs err,
    openBrowser w url tr = Some (tt, (tr ++ evs)%list)
    /\ (marks evs = [EvLookPath "google-chrome" err]
        \/ marks evs = [EvLookPath "google-chrome" err; browser_failed]).
Proof.
  unfold openBrowser, commandExists, pathExists, openBrowser_start, LookPath, Stat,
    Start, OpenURL, Error, emit, bind, request, ret, is_nil.
  repeat match goal with
         | |- context [match exec_LookPath w ?t ?f with _ => _ end] =>
             destruct (exec_LookPath w t f)
         | |- context [match os_Stat w ?t ?f with _ => _ end] =>
             destruct (os_Stat w t f)
         | |- context [match exec_Start w ?t ?f ?a with _ => _ end] =>
             destruct (exec_Start w t f a)
         | |- context [match browser_OpenURL w ?t ?u with _ => _ end] =>
             destruct (browser_OpenURL w t u)
         end;
    rewrite <- ?app_assoc; cbn [app];
    match goal with
    | |- exists evs err, Some (tt, (tr ++ ?l)%list) = _ /\ _ => exists l
    end;
    eexists; (split; [reflexivity|]);
    first [left; reflexivity | right; reflexivity].
Qed.

Lemma marks_openBrowser w url :
  adds (openBrowser w url)
       (fun _ evs => exists err,
            marks evs = [EvLookPath "google-chrome" err]
            \/ marks evs = [EvLookPath "google-chrome" err; browser_failed]).
Proof.
  intros tr a tr' H. destruct (openBrowser_marks_run w url tr) as (evs & err & Hrun & Hm).
  rewrite Hrun in H. injection H as <- <-. exists evs. split; [reflexivity | eauto].
Qed.

Lemma marks_failed_attempts url fails :
  marks (flat_map (failed_attempt url) fails) = [].
Proof. induction fails as [|e fails IH]; [reflexivity | exact IH]. Qed.

Lemma marks_probe w fuel url :
  adds (sshCode_probe w fuel url)
       (fun r evs => (r = None /\ marks evs = [EvBodyClose])
                     \/ (exists c, r = Some (TimeoutError c) /\ marks evs = [])).
Proof.
  intros tr r tr' H. unfold sshCode_probe, bind, emit, request in H.
  destruct (sshCode_loop_runs _ _ _ _ _ _ H) as (fails & _ & Hsh).
  destruct Hsh as [(resp & -> & ->) | (cause & -> & ->)];
    rewrite <- app_assoc; eexists; (split; [reflexivity|]);
    rewrite !marks_app, marks_failed_attempts; [left | right; exists cause];
    (split; reflexivity).
Qed.

Ltac hush :=
  apply adds_unmarked; only_tac; try reflexivity; try apply unmarked_randomPort_loop.

Ltac mark_norm :=
  cbv beta in *; rewrite ?app_nil_r, ?marks_app;
  repeat match goal with
         | H : marks ?e = _ |- context [marks ?e] => rewrite H
         | H : ?e = _ |- context [marks ?e] => rewrite H
         end;
  cbn [app marks filter marked String.eqb Ascii.eqb Bool.eqb]; rewrite ?app_nil_r.

Lemma sync_in_marks w o flags host :
  adds (if negb (skipSync o) then
          Info "syncing settings" ;;;
          err <- syncUserSettings w flags host false ;;
          match err with
          | Some err => ret (Some (Errorfw "failed to sync settings: %w" [] err))
          | None =>
              Info "synced settings in %s" ;;;
              Info "syncing extensions" ;;;
              err <- syncExtensions w flags host false ;;
              match err with
              | Some err => ret (Some (Errorfw "failed to sync extensions: %w" [] err))
              | None => Info "synced extensions in %s" ;;; ret None
              end
          end
        else ret None)
       (fun r evs => sync_in_part o (marks evs) r).
Proof.
  unfold sync_in_part. destruct (skipSync o); cbn [negb].
  - apply adds_ret. auto.
  - eapply adds_bind; [hush|]. intros [] e0 H0.
    eapply adds_bind; [apply marks_syncUserSettings|]. intros err e1 H1.
    destruct err as [err|].
    + apply adds_ret. mark_norm. left. eauto.
    + eapply adds_bind; [hush|]. intros [] e2 H2.
      eapply adds_bind; [hush|]. intros [] e3 H3.
      eapply adds_bind; [apply marks_syncExtensions|]. intros err e4 H4.
      destruct err as [err|].
      * apply adds_ret. mark_norm. right. left. eauto.
      * eapply adds_bind; [hush|]. intros [] e5 H5.
        apply adds_ret. mark_norm. right. right. auto.
Qed.

Lemma sync_back_marks w o flags host :
  adds (if negb (syncBack o) || skipSync o then
          Info "shutting down" ;;; ret None
        else
          Info "synchronizing VS Code back to local" ;;;
          err <- syncExtensions w flags host true ;;
          match err with
          | Some err => ret (Some (Errorfw "failed to sync extensions back: %w" [] err))
          | None =>
              err <- syncUserSettings w flags host true ;;
              match err with
              | Some err =>
                  ret (Some (Errorfw "failed to sync user settings settings back: %w" [] err))
              | None => ret None
              end
          end)
       (fun r evs => sync_back_part o (marks evs) r).
Proof.
  unfold sync_back_part. destruct (negb (syncBack o) || skipSync o).
  - eapply adds_bind; [hush|]. intros [] e0 H0. apply adds_ret. mark_norm. auto.
  - eapply adds_bind; [hush|]. intros [] e0 H0.
    eapply adds_bind; [apply marks_syncExtensions|]. intros err e1 H1.
    destruct err as [err|].
    + apply adds_ret. mark_norm. left. eauto.
    + eapply adds_bind; [apply marks_syncUserSettings|]. intros err e2 H2.
      destruct err as [err|]; apply adds_ret; mark_norm; [right; left; eauto | right; right; auto].
Qed.

Ltac journey_end rm :=
  apply adds_ret; mark_norm; exists rm; eexists;
  split; [first [reflexivity | symmetry; apply app_nil_r]|];
  split; [assumption|].

(** Every finished run of [sshCode], by its marks: host resolution, then
    one of the ways of a session. *)
Lemma sshCode_journey w fuel host dir o :
  adds (sshCode w fuel host dir o)
       (fun res evs => exists rm jm,
            marks evs = (rm ++ jm)%list /\ resolve_marks host rm /\ journey o res jm).
Proof.
  unfold sshCode.
  eapply adds_bind; [hush|]. intros [] e0 H0.
  eapply adds_bind; [apply marks_parseHost|]. intros r e1 H1. cbv beta in H1.
  destruct r as [[h extra]|err];
    [|journey_end (marks e1); eapply j_unresolved; reflexivity].
  eapply adds_bind; [apply adds_unmarked, unmarked_parseBindAddr|]. intros r e2 H2.
  destruct r as [addr|err];
    [|journey_end (marks e1); eapply j_no_address; reflexivity].
  eapply adds_bind; [hush|]. intros r e3 H3.
  destruct r as [port|err];
    [|journey_end (marks e1); eapply j_no_port; reflexivity].
  eapply adds_bind; [apply adds_event|]. intros err e4 H4.
  destruct err as [err|];
    [journey_end (marks e1); eapply j_no_bootstrap; reflexivity|].
  eapply adds_bind; [apply sync_in_marks|]. intros r e5 H5.
  destruct r as [err|];
    [journey_end (marks e1); eapply j_no_sync_in; [exact H5 | discriminate]|].
  eapply adds_bind; [hush|]. intros [] e6 H6.
  eapply adds_bind; [hush|]. intros [] e7 H7.
  eapply adds_bind; [apply adds_event|]. intros err e8 H8.
  destruct err as [err|];
    [journey_end (marks e1); eapply j_no_tunnel; [exact H5 | reflexivity]|].
  eapply adds_bind; [apply marks_probe|]. intros perr e9 H9.
  destruct perr as [err|].
  { destruct H9 as [[H9 _] | (c & H9 & H9')]; [discriminate H9|].
    injection H9 as ->.
    journey_end (marks e1); eapply j_timeout; [exact H5 | reflexivity]. }
  destruct H9 as [[_ H9] | (c & H9 & _)]; [|discriminate H9].
  eapply (adds_bind _ _ (fun _ evs => browser_marks o (marks evs))).
  { unfold browser_marks. destruct (noOpen o); cbn [negb].
    - apply adds_ret. reflexivity.
    - apply marks_openBrowser. }
  intros [] e10 H10.
  eapply adds_bind; [apply adds_event|]. intros sig e11 H11.
  eapply adds_weaken; [apply sync_back_marks|]. intros res e12 H12.
  mark_norm. exists (marks e1). eexists. split; [reflexivity|]. split; [assumption|].
  eapply (j_ran o res _ _ (marks e5) _ (marks e10) sig (marks e12));
    [exact H5 | exact H10 | exact H12].
Qed.

Lemma sshCode_marks w fuel host dir o res tr :
  sshCode w fuel host dir o [] = Some (res, tr) ->
  exists rm jm, marks tr = (rm ++ jm)%list /\ resolve_marks host rm /\ journey o res jm.
Proof.
  intros H. destruct (sshCode_journey w fuel host dir o [] res tr H) as (evs & -> & Hs).
  exact Hs.
Qed.

Lemma In_marks e tr : marked e = true -> In e tr -> In e (marks tr).
Proof. intros Hs Hin. apply filter_In. auto. Qed.

Lemma marks_In e tr : In e (marks tr) -> In e tr.
Proof. intros H. apply filter_In in H. tauto. Qed.

Lemma resolve_marks_events host rm :
  resolve_marks host rm ->
  Forall (fun e => match e with EvCombinedOutput _ _ _ _ => True | _ => False end) rm.
Proof.
  unfold resolve_marks. destruct (strings.HasPrefix _ _).
  - intros (out & herr & ->). repeat constructor.
  - intros ->. constructor.
Qed.

Lemma browser_marks_events o eb :
  browser_marks o eb ->
  Forall (fun e => match e with EvLookPath _ _ | EvError _ => True | _ => False end) eb.
Proof.
  unfold browser_marks. destruct (noOpen o).
  - intros ->. constructor.
  - intros (err & [-> | ->]); repeat constructor.
Qed.

Lemma sync_part_events evs :
  syncs evs = evs ->
  Forall (fun e => match e with EvSync _ _ _ => True | _ => False end) evs.
Proof.
  induction evs as [|e evs IH]; [constructor|].
  unfold syncs in *. cbn [filter]. destruct (is_sync e) eqn:He.
  - intros H. injection H as H. constructor; [destruct e; try discriminate He; exact I | auto].
  - intros H. exfalso.
    assert (Hin : In e (filter is_sync evs)) by (rewrite H; left; reflexivity).
    apply filter_In in Hin. destruct Hin as [_ Hin]. congruence.
Qed.

Lemma sync_in_part_syncs o e1 r :
  sync_in_part o e1 r ->
  Forall (fun e => match e with EvSync _ _ _ => True | _ => False end) e1.
Proof.
  unfold sync_in_part. destruct (skipSync o).
  - intros [-> _]. constructor.
  - intros Hp. apply sync_part_events. apply (pushed_events _ _ Hp).
Qed.

Lemma sync_back_part_syncs o e2 r :
  sync_back_part o e2 r ->
  Forall (fun e => match e with EvSync _ _ _ => True | _ => False end) e2.
Proof.
  unfold sync_back_part. destruct (negb (syncBack o) || skipSync o).
  - intros [-> _]. constructor.
  - intros Hp. apply sync_part_events. apply (pulled_events _ _ Hp).
Qed.

(** Membership in a list whose parts are known by the kind of their
    events: the parts that cannot hold the event are ruled out. *)
Ltac rule_out H :=
  repeat match type of H with
         | In _ (_ ++ _)%list => apply in_app_or in H; destruct H as [H | H]
         | In _ (_ :: _) => destruct H as [H | H]; [try discriminate H|]
         | In _ [] => destruct H
         end.

Ltac by_kind Hall H :=
  let K := fresh in
  pose proof Hall as K; rewrite Forall_forall in K; specialize (K _ H);
  exfalso; exact K.

Ltac mem := repeat first [rewrite in_app_iff | progress cbn [In app]]; auto 20.

Ltac in_trace Hm := apply marks_In; rewrite Hm; mem.



(** X4.  A session that returns no error went through every stage that its
    options ask for, each with success: the bootstrap, both pushes unless
    sync is disabled, the start of the tunnel, an answer to the probe, the
    end of [Running], and both pulls when sync-back is due; no sync call of
    the session failed. *)
Theorem session_success_means_all_stages (w : World) (fuel : nat) (host dir : string)
        (o : options) (tr : trace) :
  sshCode w fuel host dir o [] = Some (None, tr) ->
  (exists args script, In (EvRun "sh" args (Some script) None) tr)
  /\ (exists targs, In (EvStart "sh" targs None) tr)
  /\ In EvBodyClose tr
  /\ (exists sig, In (EvSelect sig) tr)
  /\ (skipSync o = false ->
      In (EvSync Settings false None) tr /\ In (EvSync Extensions false None) tr)
  /\ (skipSync o = false -> syncBack o = true ->
      In (EvSync Extensions true None) tr /\ In (EvSync Settings true None) tr)
  /\ (forall what back c, ~ In (EvSync what back (Some c)) tr).
Proof.
  intros H. destruct (sshCode_marks _ _ _ _ _ _ _ H) as (rm & jm & Hm & Hrm & Hj).
  pose proof (resolve_marks_events _ _ Hrm) as Krm.
  destruct Hj as [c Hr | c Hr | c Hr | args script c Hr | args script e1 Hp Hr
                 | args script e1 targs c Hp Hr | args script e1 targs c Hp Hr
                 | args script e1 targs eb sig e2 Hp Hb Hq];
    try discriminate Hr; try congruence.
  pose proof (browser_marks_events _ _ Hb) as Kb.
  assert (He1 : skipSync o = false ->
                e1 = [EvSync Settings false None; EvSync Extensions false None]).
  { intros Hs. unfold sync_in_part in Hp. rewrite Hs in Hp.
    apply (pushed_events _ _ Hp). reflexivity. }
  assert (He1' : skipSync o = true -> e1 = []).
  { intros Hs. unfold sync_in_part in Hp. rewrite Hs in Hp. apply Hp. }
  assert (He2 : skipSync o = false -> syncBack o = true ->
                e2 = [EvSync Extensions true None; EvSync Settings true None]).
  { intros Hs Hb'. unfold sync_back_part in Hq. rewrite Hs, Hb' in Hq. cbn in Hq.
    destruct Hq as [(c & _ & Hc) | [(c & _ & Hc) | (Hc & _)]];
      [discriminate Hc | discriminate Hc | exact Hc]. }
  assert (He2' : negb (syncBack o) || skipSync o = true -> e2 = []).
  { intros Hc. unfold sync_back_part in Hq. rewrite Hc in Hq. apply Hq. }
  split; [exists args, script; in_trace Hm|].
  split; [exists targs; in_trace Hm|].
  split; [in_trace Hm|].
  split; [exists sig; in_trace Hm|].
  split; [intros Hs; rewrite (He1 Hs) in Hm; split; in_trace Hm|].
  split; [intros Hs Hb'; rewrite (He2 Hs Hb') in Hm; split; in_trace Hm|].
  intros what back c Hin. apply In_marks in Hin; [|reflexivity]. rewrite Hm in Hin.
  destruct (skipSync o) eqn:Hs.
  - rewrite (He1' eq_refl), He2' in Hin by (now rewrite orb_true_r).
    rule_out Hin; [by_kind Krm Hin | by_kind Kb Hin].
  - rewrite (He1 eq_refl) in Hin. destruct (syncBack o) eqn:Hsb.
    + rewrite (He2 eq_refl eq_refl) in Hin.
      rule_out Hin; [by_kind Krm Hin | by_kind Kb Hin].
    + rewrite He2' in Hin by reflexivity.
      rule_out Hin; [by_kind Krm Hin | by_kind Kb Hin].
Qed.

(** A whole session in the calm world. *)
Lemma session_success_means_all_stages_witness :
  exists tr,
    sshCode (calm gcloud_line 200) 1 "gcp:vm" "proj" everything [] = Some (None, tr)
    /\ In (EvSync Extensions true None) tr /\ In (EvSync Settings true None) tr.
Proof.
  destruct (sshCode (calm gcloud_line 200) 1 "gcp:vm" "proj" everything [])
    as [[[e|] tr]|] eqn:E; try (vm_compute in E; discriminate E).
  exists tr. split; [reflexivity|].
  destruct (session_success_means_all_stages _ _ _ _ _ _ E)
    as (_ & _ & _ & _ & _ & Hback & _).
  exact (Hback eq_refl eq_refl).
Defined.

Lemma marks_split pre e post :
  marked e = true ->
  marks (pre ++ e :: post) = (marks pre ++ e :: marks post)%list.
Proof. intros He. rewrite marks_app. unfold marks at 2. simpl. now rewrite He. Qed.

(** Proves that no event of a list built from parts of known kinds
    satisfies a test. *)
Ltac kinds :=
  repeat first
    [ apply Forall_nil
    | apply Forall_cons; [reflexivity|]
    | apply Forall_app; split
    | solve [eapply Forall_impl; [|eassumption];
             intros []; simpl; intros; first [reflexivity | contradiction]] ].

(** X5.  The tunnel is started at most once in a session.  When it is
    started, the bootstrap has succeeded before, both pushes have succeeded
    before unless sync is disabled, and neither an answer to the probe nor
    the end of [Running] has been seen yet.  When the start fails, the
    session returns that error with the message of the tunnel. *)
Theorem tunnel_started_once_after_sync_in (w : World) (fuel : nat) (host dir : string)
        (o : options) (res : option error) (tr pre post : trace)
        (targs : list string) (r : option error) :
  sshCode w fuel host dir o [] = Some (res, tr) ->
  tr = (pre ++ EvStart "sh" targs r :: post)%list ->
  (exists args script, In (EvRun "sh" args (Some script) None) pre)
  /\ (skipSync o = false ->
      In (EvSync Settings false None) pre /\ In (EvSync Extensions false None) pre)
  /\ (forall a r', ~ In (EvStart "sh" a r') pre /\ ~ In (EvStart "sh" a r') post)
  /\ ~ In EvBodyClose pre
  /\ (forall sig, ~ In (EvSelect sig) pre)
  /\ (forall c, r = Some c ->
                res = Some (Errorfw "failed to start code-server: %w" [] c)).
Proof.
  intros H Etr. destruct (sshCode_marks _ _ _ _ _ _ _ H) as (rm & jm & Hm & Hrm & Hj).
  pose proof (resolve_marks_events _ _ Hrm) as Krm.
  assert (Hm' : (marks pre ++ EvStart "sh" targs r :: marks post = rm ++ jm)%list)
    by (rewrite <- Hm, Etr; symmetry; now apply marks_split).
  assert (Hin : In (EvStart "sh" targs r) (rm ++ jm)) by (rewrite <- Hm'; apply in_elt).
  assert (Hgoal :
    forall args script e1 t' r' rest,
      sync_in_part o e1 None ->
      jm = (EvRun "sh" args (Some script) None :: e1 ++ EvStart "sh" t' r' :: rest)%list ->
      Forall (fun e => is_tunnel_start e = false) rest ->
      (marks pre = rm ++ EvRun "sh" args (Some script) None :: e1)%list
      /\ t' = targs /\ r' = r /\ marks post = rest).
  { intros args script e1 t' r' rest Hp Ej Hrest.
    pose proof (sync_in_part_syncs _ _ _ Hp) as K1.
    assert (E : (marks pre ++ EvStart "sh" targs r :: marks post
                 = (rm ++ EvRun "sh" args (Some script) None :: e1)
                     ++ EvStart "sh" t' r' :: rest)%list).
    { rewrite Hm', Ej. rewrite <- app_assoc. reflexivity. }
    destruct (split_unique is_tunnel_start _ _ _ _ _ _ E eq_refl eq_refl)
      as (Epre & Ex & Epost); [kinds | exact Hrest|].
    injection Ex as -> ->. auto. }
  assert (Hpre :
    forall args script e1,
      sync_in_part o e1 None ->
      (marks pre = rm ++ EvRun "sh" args (Some script) None :: e1)%list ->
      (exists args script, In (EvRun "sh" args (Some script) None) pre)
      /\ (skipSync o = false ->
          In (EvSync Settings false None) pre /\ In (EvSync Extensions false None) pre)
      /\ (forall a r', ~ In (EvStart "sh" a r') pre)
      /\ ~ In EvBodyClose pre
      /\ (forall sig, ~ In (EvSelect sig) pre)).
  { intros args script e1 Hp Epre.
    pose proof (sync_in_part_syncs _ _ _ Hp) as K1.
    split; [exists args, script; in_trace Epre|].
    split.
    { intros Hs. unfold sync_in_part in Hp. rewrite Hs in Hp.
      destruct (pushed_events _ _ Hp) as (_ & _ & _ & _ & _ & He1).
      rewrite (He1 eq_refl) in Epre. split; in_trace Epre. }
    split; [|split].
    - intros a r' Hi. apply In_marks in Hi; [|reflexivity]. rewrite Epre in Hi.
      rule_out Hi; [by_kind Krm Hi | by_kind K1 Hi].
    - intros Hi. apply In_marks in Hi; [|reflexivity]. rewrite Epre in Hi.
      rule_out Hi; [by_kind Krm Hi | by_kind K1 Hi].
    - intros sig Hi. apply In_marks in Hi; [|reflexivity]. rewrite Epre in Hi.
      rule_out Hi; [by_kind Krm Hi | by_kind K1 Hi]. }
  destruct Hj as [c Hr | c Hr | c Hr | args script c Hr | args script e1 Hp Hr
                 | args script e1 t' c Hp Hr | args script e1 t' c Hp Hr
                 | args script e1 t' eb sig e2 Hp Hb Hq].
  - rule_out Hin. by_kind Krm Hin.
  - rule_out Hin. by_kind Krm Hin.
  - rule_out Hin. by_kind Krm Hin.
  - rule_out Hin. by_kind Krm Hin.
  - pose proof (sync_in_part_syncs _ _ _ Hp) as K1.
    rule_out Hin; [by_kind Krm Hin | by_kind K1 Hin].
  - destruct (Hgoal args script e1 t' (Some c) [] Hp eq_refl ltac:(constructor))
      as (Epre & -> & <- & Epost).
    destruct (Hpre _ _ _ Hp Epre) as (P1 & P2 & P3 & P4 & P5).
    split; [exact P1|]. split; [exact P2|]. split; [|split; [exact P4|split; [exact P5|]]].
    + intros a r'. split; [apply P3|].
      intros Hi. apply In_marks in Hi; [|reflexivity]. rewrite Epost in Hi. destruct Hi.
    + intros c' Hc. injection Hc as <-. exact Hr.
  - destruct (Hgoal args script e1 t' None [] Hp eq_refl ltac:(constructor))
      as (Epre & -> & <- & Epost).
    destruct (Hpre _ _ _ Hp Epre) as (P1 & P2 & P3 & P4 & P5).
    split; [exact P1|]. split; [exact P2|]. split; [|split; [exact P4|split; [exact P5|]]].
    + intros a r'. split; [apply P3|].
      intros Hi. apply In_marks in Hi; [|reflexivity]. rewrite Epost in Hi. destruct Hi.
    + intros c' Hc. discriminate Hc.
  - pose proof (browser_marks_events _ _ Hb) as Kb.
    pose proof (sync_back_part_syncs _ _ _ Hq) as K2.
    destruct (Hgoal args script e1 t' None
                ([EvBodyClose] ++ eb ++ [EvSelect sig] ++ e2)%list Hp eq_refl
                ltac:(kinds))
      as (Epre & -> & <- & Epost).
    destruct (Hpre _ _ _ Hp Epre) as (P1 & P2 & P3 & P4 & P5).
    split; [exact P1|]. split; [exact P2|]. split; [|split; [exact P4|split; [exact P5|]]].
    + intros a r'. split; [apply P3|].
      intros Hi. apply In_marks in Hi; [|reflexivity]. rewrite Epost in Hi.
      rule_out Hi; [by_kind Kb Hi | by_kind K2 Hi].
    + intros c' Hc. discriminate Hc.
Qed.

(** A session without sync in the world without a browser: the tunnel is
    the fifth request. *)
Lemma tunnel_started_once_after_sync_in_witness :
  exists res tr pre targs r post,
    sshCode headless 1 "devbox" "proj" browser_only [] = Some (res, tr)
    /\ tr = (pre ++ EvStart "sh" targs r :: post)%list
    /\ ~ In EvBodyClose pre
    /\ forall a r', ~ In (EvStart "sh" a r') post.
Proof.
  destruct (sshCode headless 1 "devbox" "proj" browser_only [])
    as [[res tr]|] eqn:E; [|vm_compute in E; discriminate E].
  assert (Hs : exists targs r,
             tr = (firstn 4 tr ++ EvStart "sh" targs r :: skipn 5 tr)%list).
  { vm_compute in E. injection E as <- <-. do 2 eexists. reflexivity. }
  destruct Hs as (targs & r & Hs).
  exists res, tr, (firstn 4 tr), targs, r, (skipn 5 tr).
  split; [reflexivity|]. split; [exact Hs|].
  destruct (tunnel_started_once_after_sync_in _ _ _ _ _ _ _ _ _ _ _ E Hs)
    as (_ & _ & H3 & H4 & _).
  split; [exact H4 | intros a r'; apply H3].
Defined.

Lemma filter_none {A} (P : A -> bool) l :
  Forall (fun a => P a = false) l -> filter P l = [].
Proof.
  induction 1 as [|a l Ha _ IH]; [reflexivity|]. simpl. now rewrite Ha.
Qed.

Lemma filter_all {A} (P : A -> bool) l :
  Forall (fun a => P a = true) l -> filter P l = l.
Proof.
  induction 1 as [|a l Ha _ IH]; [reflexivity|]. simpl. now rewrite Ha, IH.
Qed.

Lemma helpers_marks tr : filter is_helper (marks tr) = filter is_helper tr.
Proof.
  induction tr as [|e tr IH]; [reflexivity|].
  unfold marks in *. cbn [filter].
  destruct (marked e) eqn:Hm.
  - cbn [filter]. now rewrite IH.
  - rewrite IH. destruct e; try reflexivity. discriminate Hm.
Qed.

Lemma journey_no_helper o res jm :
  journey o res jm -> Forall (fun e => is_helper e = false) jm.
Proof.
  intros Hj.
  destruct Hj as [c Hr | c Hr | c Hr | args script c Hr | args script e1 Hp Hr
                 | args script e1 t' c Hp Hr | args script e1 t' c Hp Hr
                 | args script e1 t' eb sig e2 Hp Hb Hq];
    try pose proof (sync_in_part_syncs _ _ _ Hp) as K1;
    try pose proof (browser_marks_events _ _ Hb) as Kb;
    try pose proof (sync_back_part_syncs _ _ _ Hq) as K2;
    kinds.
Qed.

(** X6.  The host is resolved once.  The helper of the cloud provider is
    called at most one time in a session, with the command built from the
    host given, and only for a host with the cloud prefix; for any other
    host no helper is called at all. *)
Theorem helper_called_at_most_once (w : World) (fuel : nat) (host dir : string)
        (o : options) (res : option error) (tr : trace) :
  sshCode w fuel host dir o [] = Some (res, tr) ->
  if strings.HasPrefix (strings.TrimSpace host) "gcp:"
  then exists out herr,
         filter is_helper tr
         = [EvCombinedOutput "sh" ["-c"; gcp_command host] out herr]
  else filter is_helper tr = [].
Proof.
  intros H. destruct (sshCode_marks _ _ _ _ _ _ _ H) as (rm & jm & Hm & Hrm & Hj).
  rewrite <- helpers_marks, Hm, filter_app, (filter_none _ jm (journey_no_helper _ _ _ Hj)),
    app_nil_r.
  unfold resolve_marks in Hrm.
  destruct (strings.HasPrefix (strings.TrimSpace host) "gcp:").
  - destruct Hrm as (out & herr & ->). exists out, herr. reflexivity.
  - rewrite Hrm. reflexivity.
Qed.

(** A whole session for a host with the cloud prefix. *)
Lemma helper_called_at_most_once_witness :
  exists res tr out herr,
    sshCode (calm gcloud_line 200) 1 "gcp:vm" "proj" everything [] = Some (res, tr)
    /\ filter is_helper tr
       = [EvCombinedOutput "sh" ["-c"; "gcloud compute ssh --dry-run vm"] out herr].
Proof.
  destruct (sshCode (calm gcloud_line 200) 1 "gcp:vm" "proj" everything [])
    as [[res tr]|] eqn:E; [|vm_compute in E; discriminate E].
  destruct (helper_called_at_most_once _ _ _ _ _ _ _ E) as (out & herr & Hh).
  exists res, tr, out, herr. split; [reflexivity | exact Hh].
Defined.

Lemma not_browser_randomPort_loop w n : only not_browser (randomPort_loop w n).
Proof.
  induction n as [|n IH]; cbn [randomPort_loop]; only_tac; try exact I. exact IH.
Qed.

Lemma not_browser_loop w fuel url : only not_browser (sshCode_loop w fuel url).
Proof.
  induction fuel as [|fuel IH]; cbn [sshCode_loop].
  - intros t a t' H. discriminate H.
  - only_tac; try exact I. exact IH.
Qed.

Lemma not_browser_sshCode w fuel host dir o :
  noOpen o = true -> only not_browser (sshCode w fuel host dir o).
Proof.
  intros Hno. unfold sshCode, sshCode_probe, syncUserSettings, syncExtensions, rsync.
  rewrite Hno. cbn [negb].
  only_tac;
    first [ exact I | reflexivity
          | apply not_browser_randomPort_loop | apply not_browser_loop ].
Qed.

(** X7.  The browser step follows the probe and the option.  A browser is
    looked for in a session exactly when the probe was answered and opening
    was not suppressed.  With opening suppressed the session looks for no
    command, launches nothing but the tunnel, and logs no error. *)
Theorem browser_sought_when_ready (w : World) (fuel : nat) (host dir : string)
        (o : options) (res : option error) (tr : trace) :
  sshCode w fuel host dir o [] = Some (res, tr) ->
  ((exists err, In (EvLookPath "google-chrome" err) tr)
   <-> (noOpen o = false /\ In EvBodyClose tr))
  /\ (noOpen o = true -> Forall not_browser tr).
Proof.
  intros H. split.
  - destruct (sshCode_marks _ _ _ _ _ _ _ H) as (rm & jm & Hm & Hrm & Hj).
    pose proof (resolve_marks_events _ _ Hrm) as Krm.
    destruct Hj as [c Hr | c Hr | c Hr | args script c Hr | args script e1 Hp Hr
                   | args script e1 t' c Hp Hr | args script e1 t' c Hp Hr
                   | args script e1 t' eb sig e2 Hp Hb Hq];
      try pose proof (sync_in_part_syncs _ _ _ Hp) as K1;
      try pose proof (sync_back_part_syncs _ _ _ Hq) as K2.
    8:{ unfold browser_marks in Hb. destruct (noOpen o).
        - subst eb. split.
          + intros (err & Hin). apply In_marks in Hin; [|reflexivity]. rewrite Hm in Hin.
            rule_out Hin; [by_kind Krm Hin | by_kind K1 Hin | by_kind K2 Hin].
          + intros [Hc _]. discriminate Hc.
        - split.
          + intros _. split; [reflexivity | in_trace Hm].
          + intros _. destruct Hb as (err & [-> | ->]); exists err; in_trace Hm. }
    all: split;
      [ intros (err & Hin); apply In_marks in Hin; [|reflexivity]; rewrite Hm in Hin
      | intros [_ Hin]; apply In_marks in Hin; [|reflexivity]; rewrite Hm in Hin ];
      rule_out Hin; first [by_kind Krm Hin | by_kind K1 Hin].
  - intros Hno.
    destruct (not_browser_sshCode w fuel host dir o Hno [] res tr H) as (evs & -> & Hall).
    exact Hall.
Qed.

(** The two sides in the world without a browser: sought when asked for,
    nothing when suppressed. *)
Lemma browser_sought_when_ready_witness :
  (exists res tr,
      sshCode headless 1 "devbox" "proj" browser_only [] = Some (res, tr)
      /\ exists err, In (EvLookPath "google-chrome" err) tr)
  /\ (exists res tr,
         sshCode headless 1 "devbox" "proj" skip_with_back [] = Some (res, tr)
         /\ Forall not_browser tr).
Proof.
  split.
  - destruct (sshCode headless 1 "devbox" "proj" browser_only [])
      as [[res tr]|] eqn:E; [|vm_compute in E; discriminate E].
    exists res, tr. split; [reflexivity|].
    apply (proj1 (browser_sought_when_ready _ _ _ _ _ _ _ E)).
    split; [reflexivity|]. vm_compute in E. injection E as <- <-. find_in.
  - destruct (sshCode headless 1 "devbox" "proj" skip_with_back [])
      as [[res tr]|] eqn:E; [|vm_compute in E; discriminate E].
    exists res, tr. split; [reflexivity|].
    exact (proj2 (browser_sought_when_ready _ _ _ _ _ _ _ E) eq_refl).
Defined.

(** ** What a session is wired to *)

Lemma bind_inv {A B} (m : M A) (k : A -> M B) tr b tr' :
  bind m k tr = Some (b, tr') ->
  exists a tr1, m tr = Some (a, tr1) /\ k a tr1 = Some (b, tr').
Proof.
  unfold bind. destruct (m tr) as [[a tr1]|]; [eauto | discriminate].
Qed.

Lemma plain_randomPort_loop w n : only plain (randomPort_loop w n).
Proof.
  induction n as [|n IH]; cbn [randomPort_loop]; only_tac; try exact I. exact IH.
Qed.

Lemma plain_parseHost w host : only plain (parseHost w host).
Proof. only_tac; exact I. Qed.

Lemma plain_parseBindAddr w raw : only plain (parseBindAddr w raw).
Proof. only_tac; try exact I; apply plain_randomPort_loop. Qed.

Lemma plain_session_event h f addr port dir e :
  plain e -> session_event h f addr port dir e.
Proof. destruct e; simpl; tauto. Qed.

Lemma session_event_loop w fuel h f addr port dir :
  only (session_event h f addr port dir) (sshCode_loop w fuel ("http://" ++ addr)).
Proof.
  induction fuel as [|fuel IH]; cbn [sshCode_loop].
  - intros t a t' H. discriminate H.
  - only_tac; try exact I; try (split; reflexivity). exact IH.
Qed.

Lemma Forall_plain_session h f addr port dir evs :
  Forall plain evs -> Forall (session_event h f addr port dir) evs.
Proof. apply Forall_impl. apply plain_session_event. Qed.

Lemma only_runs {A} (P : event -> Prop) (m : M A) tr a tr' :
  only P m -> Forall P tr -> m tr = Some (a, tr') -> Forall P tr'.
Proof.
  intros Hm Ht H. destruct (Hm _ _ _ H) as (evs & -> & Hevs).
  apply Forall_app. split; assumption.
Qed.

(** A session either stops before it has run or started anything, or it has
    resolved a host, an address and a port, and everything it runs, starts,
    asks for and opens is built from these. *)
Lemma sshCode_wiring w fuel host dir o res tr :
  sshCode w fuel host dir o [] = Some (res, tr) ->
  Forall plain tr
  \/ exists h extra tr1 addr tr2 port tr3,
       parseHost w host [greeting] = Some (Ok (h, extra), tr1)
       /\ parseBindAddr w (bindAddr o) tr1 = Some (Ok addr, tr2)
       /\ (if (remotePort o =? "")%string then randomPort w else ret (Ok (remotePort o))) tr2
          = Some (Ok port, tr3)
       /\ Forall (session_event h (session_flags extra o) addr port dir) tr.
Proof.
  intros H. unfold sshCode in H.
  apply bind_inv in H. destruct H as (u & t0 & H0 & H).
  unfold Info, emit, request in H0. cbn [app] in H0. injection H0 as _ <-.
  assert (P0 : Forall plain [greeting]) by (repeat constructor).
  apply bind_inv in H. destruct H as (r1 & tr1 & H1 & H).
  pose proof (only_runs _ _ _ _ _ (plain_parseHost w host) P0 H1) as P1.
  destruct r1 as [[h extra] | err];
    [| injection H as _ <-; left; exact P1].
  cbv zeta in H.
  apply bind_inv in H. destruct H as (r2 & tr2 & H2 & H).
  pose proof (only_runs _ _ _ _ _ (plain_parseBindAddr w (bindAddr o)) P1 H2) as P2.
  destruct r2 as [addr | err];
    [| injection H as _ <-; left; exact P2].
  apply bind_inv in H. destruct H as (r3 & tr3 & H3 & H).
  assert (P3 : Forall plain tr3).
  { revert H3. apply only_runs; [|exact P2].
    destruct (remotePort o =? "")%string;
      [unfold randomPort; apply plain_randomPort_loop | apply only_ret]. }
  destruct r3 as [port | err];
    [| injection H as _ <-; left; exact P3].
  right. exists h, extra, tr1, addr, tr2, port, tr3.
  split; [exact H1|]. split; [exact H2|]. split; [exact H3|].
  revert H. apply only_runs; [|apply Forall_plain_session; exact P3].
  unfold session_flags, sshCode_probe, syncUserSettings, syncExtensions, rsync.
  destruct (extra =? "")%string; cbn [negb].
  all: only_tac.
  all: try exact I.
  all: try apply session_event_loop.
  all: try (split; reflexivity).
  all: try reflexivity.
  all: try (left; split; [reflexivity|]; split; [reflexivity | discriminate]).
  all: try (left; split; reflexivity).
  all: try (right; split; [intros E; discriminate E | reflexivity]).
  all: try (right; exists false; left;
            split; [reflexivity|]; split; [reflexivity|]; eexists; reflexivity).
  all: try (right; exists false; right;
            split; [reflexivity|]; split; [reflexivity|]; eexists; reflexivity).
  all: try (right; exists true; left;
            split; [reflexivity|]; split; [reflexivity|]; eexists; reflexivity).
  all: try (right; exists true; right;
            split; [reflexivity|]; split; [reflexivity|]; eexists; reflexivity).
Qed.

(** ** The address that [parseBindAddr] returns *)

Lemma randomPort_loop_result w n tr s tr' :
  randomPort_loop w n tr = Some (Ok s, tr') -> exists p, s = strconv.Itoa p.
Proof.
  revert tr. induction n as [|n IH]; intros tr; cbn [randomPort_loop].
  - intros H. discriminate H.
  - unfold bind, Intn, Listen, Close, Info, emit, request, ret.
    destruct (net_Listen w _ _ _).
    + apply IH.
    + intros H. injection H as <- _. eexists. reflexivity.
Qed.

Lemma parseBindAddr_result w raw tr s tr' :
  parseBindAddr w raw tr = Some (Ok s, tr') ->
  exists host port,
    s = net.JoinHostPort host port
    /\ net.SplitHostPort s = Ok (host, port) /\ host <> "" /\ port <> "".
Proof.
  unfold parseBindAddr.
  destruct (net.SplitHostPort _) as [[h p]|e] eqn:Es; [|intros H; discriminate H].
  destruct (SplitHostPort_parts _ _ _ Es) as (Hh & Hp & Hc).
  destruct (loopback_or_host h Hh) as [Hhost Hne].
  cbv zeta. set (host := if (h =? "")%string then "127.0.0.1" else h) in *.
  intros H. apply bind_inv in H. destruct H as (r & t1 & Hr & H).
  destruct r as [port|e]; [|discriminate H].
  injection H as <- _. exists host, port. split; [reflexivity|].
  destruct (String.eqb_spec p "") as [->|Hpne].
  - destruct (randomPort_loop_result _ _ _ _ _ Hr) as (q & ->).
    split; [|split; [exact Hne | apply Itoa_not_empty]].
    apply SplitHostPort_Join; [exact Hhost | split | ]; apply Itoa_plain; auto.
  - injection Hr as <- _.
    split; [now apply SplitHostPort_Join | auto].
Qed.

Lemma parseBindAddr_given w raw hh pp tr :
  net.SplitHostPort raw = Ok (hh, pp) -> pp <> "" ->
  parseBindAddr w raw tr
  = Some (Ok (net.JoinHostPort (if (hh =? "")%string then "127.0.0.1" else hh) pp), tr).
Proof.
  intros Hs Hp. unfold parseBindAddr.
  destruct (String.eqb_spec raw "") as [->|_]; [discriminate Hs|].
  rewrite Hs. destruct (String.eqb_spec pp "") as [E|_]; [contradiction|].
  reflexivity.
Qed.

(** X8. [parseBindAddr] is idempotent: an address that it has returned is
    returned unchanged when it is parsed again, whatever the world and the
    trace, and no request is made for it. *)
Theorem parseBindAddr_idempotent (w w' : World) (raw s : string) (tr tr' t : trace) :
  parseBindAddr w raw tr = Some (Ok s, tr') ->
  parseBindAddr w' s t = Some (Ok s, t).
Proof.
  intros H.
  destruct (parseBindAddr_result _ _ _ _ _ H) as (host & port & Hj & Hs & Hh & Hp).
  rewrite (parseBindAddr_given w' s host port t Hs Hp).
  destruct (String.eqb_spec host "") as [E|_]; [contradiction|].
  rewrite <- Hj. reflexivity.
Qed.

(** The address found by probing for a lone colon, parsed again where every
    port is taken. *)
Lemma parseBindAddr_idempotent_witness :
  exists s tr',
    parseBindAddr (calm "" 200) ":" [] = Some (Ok s, tr')
    /\ tr' <> []
    /\ parseBindAddr crowded s [] = Some (Ok s, []).
Proof.
  destruct (parseBindAddr (calm "" 200) ":" []) as [[[s|e] tr']|] eqn:E;
    try (vm_compute in E; discriminate E).
  exists s, tr'. split; [reflexivity|]. split.
  - vm_compute in E. injection E as _ <-. discriminate.
  - exact (parseBindAddr_idempotent _ crowded _ _ _ _ [] E).
Defined.

(** ** Where the commands of a session point *)

Lemma session_event_ssh_target h f addr port dir e :
  session_event h f addr port dir e -> ssh_target h f dir e.
Proof.
  destruct e; try exact (fun _ => I); simpl.
  - intros [(Hn & Ha & _) | H]; [left; auto | right; exact H].
  - intros [(_ & Ha) | (Hn & _)] Hsh; [eauto | contradiction].
Qed.

Lemma plain_ssh_target h f dir e : plain e -> ssh_target h f dir e.
Proof. destruct e; simpl; tauto. Qed.

Lemma session_event_wired h f addr port dir e :
  session_event h f addr port dir e -> wired addr port e.
Proof.
  destruct e; try exact (fun _ => I); simpl; try tauto.
  intros [(Hn & Ha) | H]; [left; eauto | right; exact H].
Qed.

Lemma plain_wired addr port e : plain e -> wired addr port e.
Proof. destruct e; simpl; tauto. Qed.

(** X9. Every remote command of a session goes to the host that [parseHost]
    returned, with the flags of the session: the bootstrap command, each
    transport (its connector and its remote side) and the tunnel command
    name that host and carry the extra flags of the resolver before the
    flags of the user. *)
Theorem session_uses_resolved_host (w : World) (fuel : nat) (host dir : string)
        (o : options) (res : option error) (tr tr1 : trace) (h extra : string) :
  sshCode w fuel host dir o [] = Some (res, tr) ->
  parseHost w host [greeting] = Some (Ok (h, extra), tr1) ->
  Forall (ssh_target h (session_flags extra o) dir) tr.
Proof.
  intros H Hp.
  destruct (sshCode_wiring _ _ _ _ _ _ _ H)
    as [Hpl | (h' & extra' & t1 & addr & t2 & port & t3 & H1 & _ & _ & Hall)].
  - revert Hpl. apply Forall_impl. apply plain_ssh_target.
  - rewrite H1 in Hp. injection Hp as -> -> _.
    revert Hall. apply Forall_impl. apply session_event_ssh_target.
Qed.

(** A cloud host: the address and the flags come from the line of the
    helper, and the flags of the user follow them. *)
Lemma session_uses_resolved_host_witness :
  exists res tr,
    sshCode (calm gcloud_line 200) 1 "gcp:vm" "proj" everything [] = Some (res, tr)
    /\ Forall (ssh_target "10.0.0.5" "-i key.pem -p 22" "proj") tr.
Proof.
  destruct (sshCode (calm gcloud_line 200) 1 "gcp:vm" "proj" everything [])
    as [[res tr]|] eqn:E; [|vm_compute in E; discriminate E].
  exists res, tr. split; [reflexivity|].
  destruct (parseHost (calm gcloud_line 200) "gcp:vm" [greeting])
    as [[[[h extra]|e] tr1]|] eqn:Eh; try (vm_compute in Eh; discriminate Eh).
  pose proof (session_uses_resolved_host _ _ _ _ _ _ _ _ _ _ E Eh) as K.
  vm_compute in Eh. injection Eh as <- <- _. exact K.
Defined.

(** X10. A session has one local address and one remote port.  The address
    splits into a host and a port that are both non-empty, and the remote
    port is not empty.  The tunnel listens on that address and forwards to
    that port, which is also the port the server is told to use; every
    request of the readiness loop goes to the URL of that address with a
    timeout of three seconds; and the browser, whichever way it is opened,
    is given the same URL. *)
Theorem session_one_address (w : World) (fuel : nat) (host dir : string)
        (o : options) (res : option error) (tr : trace) :
  sshCode w fuel host dir o [] = Some (res, tr) ->
  exists addr port ah ap,
    net.SplitHostPort addr = Ok (ah, ap) /\ ah <> "" /\ ap <> "" /\ port <> ""
    /\ Forall (wired addr port) tr.
Proof.
  intros H.
  destruct (sshCode_wiring _ _ _ _ _ _ _ H)
    as [Hpl | (h & extra & t1 & addr & t2 & port & t3 & _ & H2 & H3 & Hall)].
  - exists "127.0.0.1:0", "0", "127.0.0.1", "0".
    split; [reflexivity|]. repeat (split; [discriminate|]).
    revert Hpl. apply Forall_impl. apply plain_wired.
  - destruct (parseBindAddr_result _ _ _ _ _ H2) as (ah & ap & _ & Hs & Hah & Hap).
    exists addr, port, ah, ap.
    split; [exact Hs|]. split; [exact Hah|]. split; [exact Hap|]. split.
    + destruct (String.eqb_spec (remotePort o) "") as [_|Hne].
      * destruct (randomPort_loop_result _ _ _ _ _ H3) as (q & ->).
        apply Itoa_not_empty.
      * injection H3 as <- _. exact Hne.
    + revert Hall. apply Forall_impl. apply session_event_wired.
Qed.

(** A whole session with a lone colon as the address and no remote port:
    both are found by probing. *)
Lemma session_one_address_witness :
  exists res tr addr port ah ap,
    sshCode (calm gcloud_line 200) 1 "gcp:vm" "proj" everything [] = Some (res, tr)
    /\ net.SplitHostPort addr = Ok (ah, ap) /\ ah <> "" /\ ap <> "" /\ port <> ""
    /\ Forall (wired addr port) tr.
Proof.
  destruct (sshCode (calm gcloud_line 200) 1 "gcp:vm" "proj" everything [])
    as [[res tr]|] eqn:E; [|vm_compute in E; discriminate E].
  destruct (session_one_address _ _ _ _ _ _ _ E) as (addr & port & ah & ap & K).
  exists res, tr, addr, port, ah, ap. split; [reflexivity | exact K].
Defined.

(** ** A session whose address and port are given *)

Lemma no_probe_loop w fuel url : only no_probe (sshCode_loop w fuel url).
Proof.
  induction fuel as [|fuel IH]; cbn [sshCode_loop].
  - intros t a t' H. discriminate H.
  - only_tac; try exact I. exact IH.
Qed.

Lemma no_probe_sshCode w fuel host dir o hh pp :
  net.SplitHostPort (bindAddr o) = Ok (hh, pp) -> pp <> "" -> remotePort o <> "" ->
  only no_probe (sshCode w fuel host dir o).
Proof.
  intros Hs Hp Hr.
  assert (Hpb : only no_probe (parseBindAddr w (bindAddr o))).
  { intros t a t' H. rewrite (parseBindAddr_given w _ hh pp t Hs Hp) in H.
    injection H as _ <-. exists []. split; [symmetry; apply app_nil_r | constructor]. }
  assert (Hport : only no_probe (if (remotePort o =? "")%string
                                 then randomPort w else ret (Ok (remotePort o)))).
  { destruct (String.eqb_spec (remotePort o) "") as [E|_];
      [contradiction | apply only_ret]. }
  unfold sshCode, sshCode_probe, syncUserSettings, syncExtensions, rsync.
  repeat first
    [ exact Hpb | exact Hport | apply no_probe_loop | only_step
    | progress unfold Info, Error, CombinedOutput, Run, Start,
        LookPath, Stat, MkdirAll, CtxErr, Get, OpenURL, Select,
        commandExists, pathExists, openBrowser_start, openBrowser, ensureDir,
        parseHost, parseGCPSSHCmd, noted ];
    exact I.
Qed.

(** X11. When the bind address names a port and a remote port is given, the
    session probes for no port at all: it draws no random number and opens
    and closes no listener.  The tunnel, the readiness loop and the browser
    use the given address, with 127.0.0.1 for an empty host, and the given
    remote port. *)
Theorem given_ports_are_used (w : World) (fuel : nat) (host dir : string)
        (o : options) (res : option error) (tr : trace) (hh pp : string) :
  net.SplitHostPort (bindAddr o) = Ok (hh, pp) -> pp <> "" -> remotePort o <> "" ->
  sshCode w fuel host dir o [] = Some (res, tr) ->
  Forall no_probe tr
  /\ Forall (wired (net.JoinHostPort (if (hh =? "")%string then "127.0.0.1" else hh) pp)
                   (remotePort o)) tr.
Proof.
  intros Hs Hp Hr H. split.
  - destruct (no_probe_sshCode w fuel host dir o hh pp Hs Hp Hr _ _ _ H)
      as (evs & -> & Hall).
    exact Hall.
  - destruct (sshCode_wiring _ _ _ _ _ _ _ H)
      as [Hpl | (h & extra & t1 & addr & t2 & port & t3 & _ & H2 & H3 & Hall)].
    + revert Hpl. apply Forall_impl. apply plain_wired.
    + rewrite (parseBindAddr_given w _ hh pp t1 Hs Hp) in H2. injection H2 as <- _.
      destruct (String.eqb_spec (remotePort o) "") as [E|_]; [contradiction|].
      injection H3 as <- _.
      revert Hall. apply Forall_impl. apply session_event_wired.
Qed.

(** A session on a given address and a given remote port. *)
Lemma given_ports_are_used_witness :
  exists res tr,
    sshCode headless 1 "devbox" "proj" browser_only [] = Some (res, tr)
    /\ Forall no_probe tr
    /\ Forall (wired "127.0.0.1:8080" "9000") tr.
Proof.
  destruct (sshCode headless 1 "devbox" "proj" browser_only [])
    as [[res tr]|] eqn:E; [|vm_compute in E; discriminate E].
  exists res, tr. split; [reflexivity|].
  apply (given_ports_are_used headless 1 "devbox" "proj" browser_only res tr
           "127.0.0.1" "8080").
  - reflexivity.
  - discriminate.
  - discriminate.
  - exact E.
Defined.
